(** * recass: capture buffers and the transcription consumer

    A shallow embedding of [audio_recorder.py] (class [AudioRecorder]) and
    of [transcriber.py] (class [Transcriber]), with the properties the
    design document states about them.

    Conventions.
    - A one-channel [int16] numpy block is a [list Z]; a [float32] array is
      a [list Q] (dividing an [int16] by 32768 is exact in [float32]).
    - A Python [float] is a binary64 [float] of the kernel, with its own
      rounding; a [str] is the [string] of its UTF-8 bytes.
    - A method is a computation in the monad [M S], which threads the
      object (and the external collaborators it talks to) and either
      returns or raises; what a method wrote before it raised is kept,
      as in Python.
    - External engines (PortAudio, torchaudio, whisper, pyannote) are
      section variables: every statement holds for all their behaviours. *)

From Stdlib Require Import String Ascii.
From Stdlib Require Import ZArith List Bool QArith Lia.
From Stdlib Require Import PrimFloat SpecFloat FloatOps.
Import ListNotations.

Local Open Scope Z_scope.

(** ** Python values and control *)

Module py.

(** The exception classes the two files tell apart: [except
    torch.OutOfMemoryError] and [except queue.Empty] are tried before
    [except Exception], which catches all three; every other exception is
    only ever caught as an [Exception]. *)
Inductive exn : Type :=
| OutOfMemoryError
| Empty
| Exception (what : string).

Inductive outcome (A : Type) : Type :=
| Ret (a : A)
| Raise (e : exn).
Arguments Ret {A} a.
Arguments Raise {A} e.

Definition M (S A : Type) : Type := S -> outcome A * S.

Definition ret {S A} (a : A) : M S A := fun s => (Ret a, s).

Definition raise {S A} (e : exn) : M S A := fun s => (Raise e, s).

Definition bind {S A B} (m : M S A) (k : A -> M S B) : M S B :=
  fun s => match m s with
           | (Ret a, s') => k a s'
           | (Raise e, s') => (Raise e, s')
           end.

(** [try: m  except ... as e: h e]; a handler that does not apply
    re-raises. *)
Definition try_except {S A} (m : M S A) (h : exn -> M S A) : M S A :=
  fun s => match m s with
           | (Ret a, s') => (Ret a, s')
           | (Raise e, s') => h e s'
           end.

Definition get {S} : M S S := fun s => (Ret s, s).

(** An expression that returns or raises without touching the state. *)
Definition lift {S A} (o : outcome A) : M S A := fun s => (o, s).

Definition modify {S} (f : S -> S) : M S unit := fun s => (Ret tt, f s).

Definition when {S} (b : bool) (m : M S unit) : M S unit :=
  if b then m else ret tt.

(** The state a computation leaves, and whether it returned. *)
Definition exec {S A} (m : M S A) (s : S) : S := snd (m s).

Definition returns {S A} (m : M S A) (s : S) : bool :=
  match fst (m s) with Ret _ => true | Raise _ => false end.

(** A slice bound as Python normalises it on a sequence of [len] items. *)
Definition bound (len i : Z) : nat :=
  Z.to_nat (if i <? 0 then Z.max (len + i) 0 else Z.min i len).

(** [l[:k]], [l[k:]] and [l[i:j]]. *)
Definition slice_to {A} (l : list A) (k : Z) : list A :=
  firstn (bound (Z.of_nat (length l)) k) l.

Definition slice_from {A} (l : list A) (k : Z) : list A :=
  skipn (bound (Z.of_nat (length l)) k) l.

Definition slice {A} (l : list A) (i j : Z) : list A :=
  let n := Z.of_nat (length l) in
  firstn (bound n j - bound n i) (skipn (bound n i) l).

Definition len {A} (l : list A) : Z := Z.of_nat (length l).

(** Truth value of a sequence: non-empty. *)
Definition truthy {A} (l : list A) : bool :=
  match l with [] => false | _ :: _ => true end.

(** Reasoning along a computation with a relation between the state it
    starts in and the state it leaves, whether it returns or raises. *)
Section Steps.

Context {S : Type} (R : S -> S -> Prop).
Hypothesis R_refl : forall s, R s s.
Hypothesis R_trans : forall a b c, R a b -> R b c -> R a c.

Definition leads {A} (m : M S A) (s : S) : Prop := R s (snd (m s)).

Lemma leads_ret {A} (a : A) (s : S) : leads (ret a) s.
Proof. apply R_refl. Qed.

Lemma leads_raise {A} (e : exn) (s : S) : leads (@raise S A e) s.
Proof. apply R_refl. Qed.

Lemma leads_get (s : S) : leads get s.
Proof. apply R_refl. Qed.

Lemma leads_lift {A} (o : outcome A) (s : S) : leads (lift o) s.
Proof. apply R_refl. Qed.

Lemma leads_bind {A B} (m : M S A) (k : A -> M S B) (s : S) :
  leads m s ->
  (forall a s1, m s = (Ret a, s1) -> leads (k a) s1) ->
  leads (bind m k) s.
Proof.
  unfold leads, bind. intros Hm Hk.
  destruct (m s) as [[a|e] s1] eqn:E; cbn in *; [|exact Hm].
  eapply R_trans; [exact Hm|]. now apply Hk.
Qed.

Lemma leads_try_except {A} (m : M S A) (h : exn -> M S A) (s : S) :
  leads m s ->
  (forall e s1, m s = (Raise e, s1) -> leads (h e) s1) ->
  leads (try_except m h) s.
Proof.
  unfold leads, try_except. intros Hm Hh.
  destruct (m s) as [[a|e] s1] eqn:E; cbn in *; [exact Hm|].
  eapply R_trans; [exact Hm|]. now apply Hh.
Qed.

Lemma leads_when (b : bool) (m : M S unit) (s : S) :
  (b = true -> leads m s) -> leads (when b m) s.
Proof.
  destruct b; cbn; intros H; [now apply H|apply leads_ret].
Qed.

End Steps.

Lemma get_inv {S} (s a s1 : S) : get s = (Ret a, s1) -> a = s /\ s1 = s.
Proof. unfold get. intros H. inversion H. auto. Qed.

End py.

Export py.

Declare Scope py_scope.
Delimit Scope py_scope with py.
Notation "x <- m ;; k" := (bind m (fun x => k))
  (at level 61, m at next level, right associativity) : py_scope.
Notation "m ;; k" := (bind m (fun _ => k))
  (at level 61, right associativity) : py_scope.
Local Open Scope py_scope.

(** ** config.py *)

Definition WHISPER_SAMPLE_RATE : Z := 16000.
(** [CHUNK_SECONDS = 15.0]: the product [samplerate * 15.0] is exact in
    double precision for every rate below 2^49, so [int(...)] is the
    integer product. *)
Definition CHUNK_SECONDS : Z := 15.
Definition MIX_SAMPLE_RATE : Z := 48000.

Inductive Source : Type := MIC | LOOPBACK.

Definition Source_eqb (a b : Source) : bool :=
  match a, b with
  | MIC, MIC | LOOPBACK, LOOPBACK => true
  | _, _ => false
  end.

Definition Block : Type := list Z.
Definition Audio : Type := list Q.

(** [chunk.astype(np.float32) / 32768.0] *)
Definition to_float32 (chunk : Block) : Audio :=
  map (fun x => Qmake x 32768) chunk.

(** ** audio_recorder.py *)

Module audio_recorder.

(** An [sd.InputStream]: constructing it opens the device; [start] makes
    it deliver blocks; [stop] and [close] end that. *)
Record InputStream : Type := mkInputStream {
  device : Z;
  samplerate : Z;
  active : bool;
  closed : bool
}.

(** A [T.Resample(orig_freq, new_freq)] object is its two frequencies. *)
Definition Resampler : Type := (Z * Z)%type.

Section Host.

(** [np.sqrt(np.mean((indata / 32768.0) ** 2))], the level handed to the
    level callback. *)
Variable Level : Type.
Variable level_rms : Block -> Level.

(** Applying a [T.Resample] object to a tensor that holds samples (on a
    tensor without any the transform raises, see [resample]). *)
Variable Resample : Z -> Z -> Audio -> Audio.

(** [sd.InputStream(device=...)]: the sample rate of the opened stream, or
    the exception PortAudio raises. *)
Variable sd_InputStream : Z -> outcome Z.

(** [stream.start()]. *)
Variable sd_start : Z -> outcome unit.

(** [torchaudio.save(path, tensor, rate)] of a two-channel tensor. *)
Variable torchaudio_save : string -> Audio * Audio -> Z -> outcome unit.

Record AudioRecorder : Type := mkAudioRecorder {
  mic_id : Z;
  loopback_id : Z;
  transcription_queue : list (Audio * Source);
  level_callback : option (list (Source * Level));
  mic_buffer : list Block;
  loopback_buffer : list Block;
  mic_buffer_size : Z;
  loopback_buffer_size : Z;
  loopback_silence_warning_shown : bool;
  mic_stream : option InputStream;
  loopback_stream : option InputStream;
  mic_samplerate : option Z;
  loopback_samplerate : option Z;
  mic_resampler : option Resampler;
  loopback_resampler : option Resampler;
  mic_file_buffer : list Block;
  loopback_file_buffer : list Block;
  is_writing_audio : bool;
  mixed_audio_path : option string
}.

(** [AudioRecorder.__init__]; the queue is the one shared with the
    consumer, the level callback (when given) is the list of levels it has
    been called with. *)
Definition __init__ (mic loopback : Z) (queue : list (Audio * Source))
    (level_cb : bool) : AudioRecorder :=
  mkAudioRecorder mic loopback queue (if level_cb then Some [] else None)
    [] [] 0 0 false None None None None None None [] [] false None.

(** Field updates. *)
Definition set_transcription_queue v r := let 'mkAudioRecorder a b _ d e f g h i j k l m n o p q s t := r in mkAudioRecorder a b v d e f g h i j k l m n o p q s t.
Definition set_level_callback v r := let 'mkAudioRecorder a b c _ e f g h i j k l m n o p q s t := r in mkAudioRecorder a b c v e f g h i j k l m n o p q s t.
Definition set_mic_buffer v r := let 'mkAudioRecorder a b c d _ f g h i j k l m n o p q s t := r in mkAudioRecorder a b c d v f g h i j k l m n o p q s t.
Definition set_loopback_buffer v r := let 'mkAudioRecorder a b c d e _ g h i j k l m n o p q s t := r in mkAudioRecorder a b c d e v g h i j k l m n o p q s t.
Definition set_mic_buffer_size v r := let 'mkAudioRecorder a b c d e f _ h i j k l m n o p q s t := r in mkAudioRecorder a b c d e f v h i j k l m n o p q s t.
Definition set_loopback_buffer_size v r := let 'mkAudioRecorder a b c d e f g _ i j k l m n o p q s t := r in mkAudioRecorder a b c d e f g v i j k l m n o p q s t.
Definition set_loopback_silence_warning_shown v r := let 'mkAudioRecorder a b c d e f g h _ j k l m n o p q s t := r in mkAudioRecorder a b c d e f g h v j k l m n o p q s t.
Definition set_mic_stream v r := let 'mkAudioRecorder a b c d e f g h i _ k l m n o p q s t := r in mkAudioRecorder a b c d e f g h i v k l m n o p q s t.
Definition set_loopback_stream v r := let 'mkAudioRecorder a b c d e f g h i j _ l m n o p q s t := r in mkAudioRecorder a b c d e f g h i j v l m n o p q s t.
Definition set_mic_samplerate v r := let 'mkAudioRecorder a b c d e f g h i j k _ m n o p q s t := r in mkAudioRecorder a b c d e f g h i j k v m n o p q s t.
Definition set_loopback_samplerate v r := let 'mkAudioRecorder a b c d e f g h i j k l _ n o p q s t := r in mkAudioRecorder a b c d e f g h i j k l v n o p q s t.
Definition set_mic_resampler v r := let 'mkAudioRecorder a b c d e f g h i j k l m _ o p q s t := r in mkAudioRecorder a b c d e f g h i j k l m v o p q s t.
Definition set_loopback_resampler v r := let 'mkAudioRecorder a b c d e f g h i j k l m n _ p q s t := r in mkAudioRecorder a b c d e f g h i j k l m n v p q s t.
Definition set_mic_file_buffer v r := let 'mkAudioRecorder a b c d e f g h i j k l m n o _ q s t := r in mkAudioRecorder a b c d e f g h i j k l m n o v q s t.
Definition set_loopback_file_buffer v r := let 'mkAudioRecorder a b c d e f g h i j k l m n o p _ s t := r in mkAudioRecorder a b c d e f g h i j k l m n o p v s t.
Definition set_is_writing_audio v r := let 'mkAudioRecorder a b c d e f g h i j k l m n o p q _ t := r in mkAudioRecorder a b c d e f g h i j k l m n o p q v t.
Definition set_mixed_audio_path v r := let 'mkAudioRecorder a b c d e f g h i j k l m n o p q s _ := r in mkAudioRecorder a b c d e f g h i j k l m n o p q s v.

(** The attributes [_process_data] selects by [source_name]. *)
Definition buffer_list (s : Source) (r : AudioRecorder) : list Block :=
  match s with MIC => mic_buffer r | LOOPBACK => loopback_buffer r end.

Definition buffer_size (s : Source) (r : AudioRecorder) : Z :=
  match s with MIC => mic_buffer_size r | LOOPBACK => loopback_buffer_size r end.

Definition source_samplerate (s : Source) (r : AudioRecorder) : option Z :=
  match s with MIC => mic_samplerate r | LOOPBACK => loopback_samplerate r end.

Definition resampler (s : Source) (r : AudioRecorder) : option Resampler :=
  match s with MIC => mic_resampler r | LOOPBACK => loopback_resampler r end.

Definition set_buffer_list (s : Source) (v : list Block) : AudioRecorder -> AudioRecorder :=
  match s with MIC => set_mic_buffer v | LOOPBACK => set_loopback_buffer v end.

Definition set_buffer_size (s : Source) (v : Z) : AudioRecorder -> AudioRecorder :=
  match s with MIC => set_mic_buffer_size v | LOOPBACK => set_loopback_buffer_size v end.

Definition file_buffer (s : Source) (r : AudioRecorder) : list Block :=
  match s with MIC => mic_file_buffer r | LOOPBACK => loopback_file_buffer r end.

Definition set_file_buffer (s : Source) (v : list Block) : AudioRecorder -> AudioRecorder :=
  match s with MIC => set_mic_file_buffer v | LOOPBACK => set_loopback_file_buffer v end.

(** [np.abs] on [int16] wraps at the least value. *)
Definition abs_int16 (x : Z) : Z := if x =? -32768 then -32768 else Z.abs x.

(** [np.abs(indata).mean() < 100]: the mean of an empty block is [nan],
    which is below nothing. *)
Definition mean_abs_below (indata : Block) (floor : Z) : bool :=
  match indata with
  | [] => false
  | _ => fold_right Z.add 0 (map abs_int16 indata) <? floor * len indata
  end.

(** [int(samplerate * CHUNK_SECONDS)]; a [None] rate raises. *)
Definition frames_per_chunk_of (sr : Z) : Z := sr * CHUNK_SECONDS.

Definition _process_data (indata : Block) (source_name : Source) : M AudioRecorder unit :=
  r <- get ;;
  match level_callback r with
  | Some seen => modify (set_level_callback (Some (seen ++ [(source_name, level_rms indata)])))
  | None => ret tt
  end ;;
  when (is_writing_audio r)
    (modify (fun r => set_file_buffer source_name (file_buffer source_name r ++ [indata]) r)) ;;
  when (Source_eqb source_name LOOPBACK && negb (loopback_silence_warning_shown r))
    (when (mean_abs_below indata 100) (modify (set_loopback_silence_warning_shown true))) ;;
  let new_data := indata in
  modify (fun r => set_buffer_list source_name (buffer_list source_name r ++ [new_data]) r) ;;
  r <- get ;;
  let size := buffer_size source_name r + len new_data in
  frames_per_chunk <-
    match source_samplerate source_name r with
    | Some sr => ret (frames_per_chunk_of sr)
    | None => raise (Exception "TypeError")
    end ;;
  size <-
    (if frames_per_chunk <=? size then
       let full_audio := concat (buffer_list source_name r) in
       let chunk := slice_to full_audio frames_per_chunk in
       let remainder := slice_from full_audio frames_per_chunk in
       modify (set_buffer_list source_name (if 0 <? len remainder then [remainder] else [])) ;;
       let audio_float := to_float32 chunk in
       let audio_final :=
         match resampler source_name r with
         | Some (orig_freq, new_freq) => Resample orig_freq new_freq audio_float
         | None => audio_float
         end in
       modify (fun r => set_transcription_queue
                          (transcription_queue r ++ [(audio_final, source_name)]) r) ;;
       ret (if 0 <? len remainder then len remainder else 0)
     else ret size) ;;
  modify (set_buffer_size source_name size).

Definition mic_callback (indata : Block) : M AudioRecorder unit :=
  _process_data indata MIC.

Definition loopback_callback (indata : Block) : M AudioRecorder unit :=
  _process_data indata LOOPBACK.

(** The driver delivering a sequence of blocks, each to the callback of
    its stream. *)
Fixpoint deliver (blocks : list (Source * Block)) : M AudioRecorder unit :=
  match blocks with
  | [] => ret tt
  | (source_name, indata) :: rest => _process_data indata source_name ;; deliver rest
  end.

Definition start_audio_file_writing (mixed_path : string) : M AudioRecorder unit :=
  modify (set_mixed_audio_path (Some mixed_path)) ;;
  modify (set_mic_file_buffer []) ;;
  modify (set_loopback_file_buffer []) ;;
  modify (set_is_writing_audio true).

(** [T.Resample(orig_freq, new_freq)(tensor)] on a tensor made on the
    spot: the transform raises [RuntimeError] on a tensor that holds no
    sample. *)
Definition resample (orig_freq new_freq : Z) (tensor : Audio) : M AudioRecorder Audio :=
  if truthy tensor then ret (Resample orig_freq new_freq tensor)
  else raise (Exception "RuntimeError").

(** One track of the mix: concatenated, scaled, and resampled when the
    stream's rate is not the mix rate ([T.Resample(orig_freq=None, ...)]
    raises). *)
Definition mix_track (copy : list Block) (rate : option Z) : M AudioRecorder Audio :=
  if truthy copy then
    let tensor := to_float32 (concat copy) in
    match rate with
    | Some sr => if sr =? MIX_SAMPLE_RATE then ret tensor
                 else resample sr MIX_SAMPLE_RATE tensor
    | None => raise (Exception "TypeError")
    end
  else ret [].

(** [torch.nn.functional.pad(t, (0, n))] *)
Definition pad (t : Audio) (n : Z) : Audio := t ++ repeat (0 # 1)%Q (Z.to_nat n).

Definition path_set (p : option string) : bool :=
  match p with
  | Some EmptyString | None => false
  | Some _ => true
  end.

Definition stop_audio_file_writing : M AudioRecorder (option string) :=
  modify (set_is_writing_audio false) ;;
  r <- get ;;
  let mic_buffer_copy := mic_file_buffer r in
  let loopback_buffer_copy := loopback_file_buffer r in
  modify (set_mic_file_buffer []) ;;
  modify (set_loopback_file_buffer []) ;;
  if negb (path_set (mixed_audio_path r)) then ret None
  else if negb (truthy mic_buffer_copy) && negb (truthy loopback_buffer_copy) then ret None
  else
    mic_tensor <- mix_track mic_buffer_copy (mic_samplerate r) ;;
    loopback_tensor <- mix_track loopback_buffer_copy (loopback_samplerate r) ;;
    let mic_len := len mic_tensor in
    let loopback_len := len loopback_tensor in
    let max_len := Z.max mic_len loopback_len in
    if 0 <? max_len then
      let mic_padded := pad mic_tensor (max_len - mic_len) in
      let loopback_padded := pad loopback_tensor (max_len - loopback_len) in
      match mixed_audio_path r with
      | Some path =>
          match torchaudio_save path (mic_padded, loopback_padded) MIX_SAMPLE_RATE with
          | Ret _ => ret (Some path)
          | Raise _ => ret None
          end
      | None => ret None
      end
    else ret None.

(** An external call that returns or raises without touching the object. *)
Definition call {A} (o : outcome A) : M AudioRecorder A := fun r => (o, r).

Definition started (s : InputStream) : InputStream :=
  mkInputStream (device s) (samplerate s) true (closed s).

Definition stopped_and_closed (s : InputStream) : InputStream :=
  mkInputStream (device s) (samplerate s) false true.

Definition start_recording : M AudioRecorder unit :=
  r <- get ;;
  mic_rate <- call (sd_InputStream (mic_id r)) ;;
  modify (set_mic_stream (Some (mkInputStream (mic_id r) mic_rate false false))) ;;
  loopback_rate <- call (sd_InputStream (loopback_id r)) ;;
  modify (set_loopback_stream
            (Some (mkInputStream (loopback_id r) loopback_rate false false))) ;;
  modify (set_mic_samplerate (Some mic_rate)) ;;
  modify (set_loopback_samplerate (Some loopback_rate)) ;;
  when (negb (mic_rate =? WHISPER_SAMPLE_RATE))
    (modify (set_mic_resampler (Some (mic_rate, WHISPER_SAMPLE_RATE)))) ;;
  when (negb (loopback_rate =? WHISPER_SAMPLE_RATE))
    (modify (set_loopback_resampler (Some (loopback_rate, WHISPER_SAMPLE_RATE)))) ;;
  call (sd_start (mic_id r)) ;;
  modify (fun r => set_mic_stream (option_map started (mic_stream r)) r) ;;
  call (sd_start (loopback_id r)) ;;
  modify (fun r => set_loopback_stream (option_map started (loopback_stream r)) r).

Definition stop_recording : M AudioRecorder unit :=
  modify (fun r => set_mic_stream (option_map stopped_and_closed (mic_stream r)) r) ;;
  modify (fun r => set_loopback_stream (option_map stopped_and_closed (loopback_stream r)) r).

(** A stream that is open, and one that is delivering blocks. *)
Definition is_open (s : option InputStream) : bool :=
  match s with Some st => negb (closed st) | None => false end.

Definition is_running (s : option InputStream) : bool :=
  match s with Some st => active st && negb (closed st) | None => false end.

(** *** What one push does *)

(** The chunk as it is queued: scaled, then resampled when the stream has
    a resampler. *)
Definition queued_chunk (source_name : Source) (r : AudioRecorder) (chunk : Block) : Audio * Source :=
  (match resampler source_name r with
   | Some (orig_freq, new_freq) => Resample orig_freq new_freq (to_float32 chunk)
   | None => to_float32 chunk
   end, source_name).

(** The samples a stream holds back. *)
Definition backlog (source_name : Source) (r : AudioRecorder) : Block :=
  concat (buffer_list source_name r).

(** The size attribute agrees with the buffered arrays. *)
Definition size_in_step (source_name : Source) (r : AudioRecorder) : Prop :=
  buffer_size source_name r = len (backlog source_name r).

Lemma len_app {A} (l1 l2 : list A) : len (l1 ++ l2) = len l1 + len l2.
Proof. unfold len. rewrite length_app. lia. Qed.

Lemma len_nonneg {A} (l : list A) : 0 <= len l.
Proof. unfold len. lia. Qed.

Lemma backlog_singleton_or_empty (l : Block) :
  concat (if 0 <? len l then [l] else []) = l.
Proof.
  destruct l as [|x l]; [reflexivity|].
  replace (0 <? len (x :: l)) with true; [cbn; now rewrite app_nil_r|].
  symmetry. apply Z.ltb_lt. unfold len. cbn [length]. lia.
Qed.

Lemma size_singleton_or_empty (l : Block) :
  (if 0 <? len l then len l else 0) = len l.
Proof.
  destruct (Z.ltb_spec 0 (len l)); [reflexivity|]. pose proof (len_nonneg l). lia.
Qed.

Lemma slice_to_from {A} (l : list A) (k : Z) : slice_to l k ++ slice_from l k = l.
Proof. apply firstn_skipn. Qed.

Lemma slice_to_len {A} (l : list A) (k : Z) :
  0 <= k <= len l -> len (slice_to l k) = k.
Proof.
  intros H. unfold slice_to, bound, len in *.
  destruct (Z.ltb_spec k 0); [lia|].
  rewrite length_firstn. lia.
Qed.

Lemma slice_from_len {A} (l : list A) (k : Z) :
  0 <= k <= len l -> len (slice_from l k) = len l - k.
Proof.
  intros H. unfold slice_from, bound, len in *.
  destruct (Z.ltb_spec k 0); [lia|].
  rewrite length_skipn. lia.
Qed.

(** Runs [_process_data] on a recorder taken apart field by field, up to
    the comparison with [frames_per_chunk]. *)
Ltac run_push r source_name indata :=
  let Em := fresh "Em" in
  destruct r as [? ? ? [?|] ? ? ? ? [|] ? ? ? ? ? ? ? ? [|] ?];
  destruct source_name, (mean_abs_below indata 100) eqn:Em;
  unfold exec, returns, _process_data, backlog, queued_chunk,
    bind, get, modify, when, ret;
  cbn in *; rewrite ?Em; cbn; subst.

(** A push that does not reach a chunk only appends. *)
Lemma push_below (indata : Block) (source_name : Source) (r : AudioRecorder) (sr : Z) :
  source_samplerate source_name r = Some sr ->
  buffer_size source_name r + len indata < frames_per_chunk_of sr ->
  let r' := exec (_process_data indata source_name) r in
  returns (_process_data indata source_name) r = true /\
  transcription_queue r' = transcription_queue r /\
  backlog source_name r' = backlog source_name r ++ indata /\
  buffer_size source_name r' = buffer_size source_name r + len indata.
Proof.
  intros Hsr Hlt.
  run_push r source_name indata;
    match goal with
    | |- context [?a <=? ?b] => destruct (Z.leb_spec a b); [lia|]
    end;
    cbn; rewrite concat_app; cbn; rewrite app_nil_r; auto.
Qed.

(** A push that reaches a chunk takes one chunk off the front, once. *)
Lemma push_reaching (indata : Block) (source_name : Source) (r : AudioRecorder) (sr : Z) :
  source_samplerate source_name r = Some sr ->
  frames_per_chunk_of sr <= buffer_size source_name r + len indata ->
  let r' := exec (_process_data indata source_name) r in
  let full_audio := backlog source_name r ++ indata in
  returns (_process_data indata source_name) r = true /\
  transcription_queue r' =
    transcription_queue r ++
      [queued_chunk source_name r (slice_to full_audio (frames_per_chunk_of sr))] /\
  backlog source_name r' = slice_from full_audio (frames_per_chunk_of sr) /\
  buffer_size source_name r' = len (slice_from full_audio (frames_per_chunk_of sr)).
Proof.
  intros Hsr Hle.
  run_push r source_name indata;
    match goal with
    | |- context [?a <=? ?b] => destruct (Z.leb_spec a b); [|lia]
    end;
    cbn; rewrite ?concat_app; cbn; rewrite ?app_nil_r;
    rewrite ?backlog_singleton_or_empty, ?size_singleton_or_empty; auto.
Qed.

(** A push leaves the rates, the resamplers and the other stream's
    buffer alone, whether it returns or raises. *)
Lemma push_frame (indata : Block) (source_name other : Source) (r : AudioRecorder) :
  let r' := exec (_process_data indata source_name) r in
  source_samplerate other r' = source_samplerate other r /\
  resampler other r' = resampler other r /\
  (other <> source_name ->
   backlog other r' = backlog other r /\ buffer_size other r' = buffer_size other r).
Proof.
  destruct r as [? ? ? [?|] ? ? ? ? [|] ? ? [?|] [?|] ? ? ? ? [|] ?];
    destruct source_name, other, (mean_abs_below indata 100) eqn:Em;
    unfold exec, _process_data, backlog, bind, get, modify, when, ret, raise;
    cbn; rewrite ?Em; cbn;
    try match goal with
        | |- context [?a <=? ?b] => destruct (a <=? b)
        end;
    cbn; repeat split; auto; intros; congruence.
Qed.

(** *** Chunking, one push at a time *)

(** Every stream holds back less than one chunk. *)
Definition within_one_chunk (r : AudioRecorder) : Prop :=
  forall source_name sr,
    source_samplerate source_name r = Some sr ->
    len (backlog source_name r) < frames_per_chunk_of sr.

(** A block no longer than one chunk of the stream it belongs to. *)
Definition fits_one_chunk (r : AudioRecorder) (b : Source * Block) : Prop :=
  forall sr, source_samplerate (fst b) r = Some sr ->
             len (snd b) <= frames_per_chunk_of sr.

Definition streams_opened (r : AudioRecorder) : Prop :=
  forall source_name, source_samplerate source_name r <> None.

Lemma push_keeps_backlog_short (indata : Block) (source_name : Source) (r : AudioRecorder) :
  streams_opened r ->
  (forall s, size_in_step s r) ->
  within_one_chunk r ->
  fits_one_chunk r (source_name, indata) ->
  let r' := exec (_process_data indata source_name) r in
  returns (_process_data indata source_name) r = true /\
  (forall s, source_samplerate s r' = source_samplerate s r) /\
  (forall s, size_in_step s r') /\
  within_one_chunk r'.
Proof.
  intros Hopen Hsize Hshort Hfit r'.
  destruct (source_samplerate source_name r) as [sr|] eqn:Hsr;
    [|now destruct (Hopen source_name)].
  specialize (Hfit sr Hsr). cbn in Hfit.
  pose proof (Hshort _ _ Hsr) as Hb.
  pose proof (Hsize source_name) as Hs. unfold size_in_step in Hs.
  assert (Hrates : forall s, source_samplerate s r' = source_samplerate s r)
    by (intros s; apply (push_frame indata source_name s r)).
  assert (Hmine :
            returns (_process_data indata source_name) r = true /\
            buffer_size source_name r' = len (backlog source_name r') /\
            len (backlog source_name r') < frames_per_chunk_of sr).
  { destruct (Z.lt_ge_cases (buffer_size source_name r + len indata)
                (frames_per_chunk_of sr)) as [Hlt|Hge].
    - destruct (push_below indata source_name r sr Hsr Hlt) as (Hr & _ & Hbk & Hsz).
      fold r' in Hbk, Hsz. rewrite Hbk, Hsz, len_app. repeat split; auto; lia.
    - destruct (push_reaching indata source_name r sr Hsr Hge) as (Hr & _ & Hbk & Hsz).
      fold r' in Hbk, Hsz. rewrite Hbk, Hsz.
      pose proof (len_nonneg (backlog source_name r)).
      rewrite slice_from_len; rewrite len_app; repeat split; auto; lia. }
  destruct Hmine as (Hr & Hsz & Hlt).
  split; [exact Hr|]. split; [exact Hrates|]. split.
  - intros s. destruct (Source_eqb s source_name) eqn:E.
    + destruct s, source_name; try discriminate; exact Hsz.
    + assert (s <> source_name) as Hne by (destruct s, source_name; discriminate || congruence).
      destruct (push_frame indata source_name s r) as (_ & _ & Hother).
      destruct (Hother Hne) as (Hbk & Hbs). fold r' in Hbk, Hbs.
      unfold size_in_step. rewrite Hbk, Hbs. apply Hsize.
  - intros s sr' Hsr'. rewrite Hrates in Hsr'.
    destruct (Source_eqb s source_name) eqn:E.
    + assert (s = source_name) by (destruct s, source_name; discriminate || reflexivity).
      subst s. rewrite Hsr in Hsr'. inversion Hsr'; subst. exact Hlt.
    + assert (s <> source_name) as Hne by (destruct s, source_name; discriminate || congruence).
      destruct (push_frame indata source_name s r) as (_ & _ & Hother).
      destruct (Hother Hne) as (Hbk & _). fold r' in Hbk.
      rewrite Hbk. now apply Hshort.
Qed.

(** The blocks the driver delivers ([blocksize=1024]) are shorter than a
    chunk at every rate from 69 Hz up. *)
Lemma driver_block_fits (r : AudioRecorder) (source_name : Source) (indata : Block) :
  (forall sr, source_samplerate source_name r = Some sr -> 69 <= sr) ->
  len indata = 1024 ->
  fits_one_chunk r (source_name, indata).
Proof.
  intros Hrate Hlen sr Hsr. cbn in *. specialize (Hrate sr Hsr).
  unfold frames_per_chunk_of, CHUNK_SECONDS. lia.
Qed.

(** C1 (as the code has it). A push into an empty backlog whose length is
    N times [frames_per_chunk], N >= 1, returns, puts exactly one chunk on
    the transcription queue -- the first [frames_per_chunk] samples -- and
    keeps the other (N - 1) * [frames_per_chunk] samples as backlog: the
    chunk test is an [if], taken once per push. For N = 1 that is one chunk
    and no remainder. *)
Theorem push_of_N_chunks_emits_one (indata : Block) (source_name : Source)
    (r : AudioRecorder) (sr N : Z) :
  source_samplerate source_name r = Some sr ->
  buffer_list source_name r = [] ->
  buffer_size source_name r = 0 ->
  1 <= N ->
  len indata = N * frames_per_chunk_of sr ->
  let r' := exec (_process_data indata source_name) r in
  let chunk := slice_to indata (frames_per_chunk_of sr) in
  returns (_process_data indata source_name) r = true /\
  transcription_queue r' = transcription_queue r ++ [queued_chunk source_name r chunk] /\
  len chunk = frames_per_chunk_of sr /\
  backlog source_name r' = slice_from indata (frames_per_chunk_of sr) /\
  buffer_size source_name r' = (N - 1) * frames_per_chunk_of sr.
Proof.
  intros Hsr Hempty Hzero HN Hlen r' chunk.
  pose proof (len_nonneg indata) as Hpos.
  assert (0 <= frames_per_chunk_of sr) as Hfpc by nia.
  assert (frames_per_chunk_of sr <= buffer_size source_name r + len indata) as Hge by nia.
  destruct (push_reaching indata source_name r sr Hsr Hge) as (Hr & Hq & Hbk & Hsz).
  unfold backlog in Hq, Hbk, Hsz. rewrite Hempty in Hq, Hbk, Hsz. cbn in Hq, Hbk, Hsz.
  fold r' in Hq, Hbk, Hsz.
  split; [exact Hr|]. split; [exact Hq|]. split.
  - apply slice_to_len. nia.
  - split; [exact Hbk|]. rewrite Hsz, slice_from_len; nia.
Qed.

(** C3 (as the code has it). Starting from streams that hold less than one
    chunk, after any sequence of pushes in which no block is longer than
    one chunk of its stream (the driver's blocks are 1024 frames), every
    push returns and every stream still holds strictly less than one chunk,
    with the size attributes in step with the buffers. *)
Theorem backlog_stays_below_one_chunk (blocks : list (Source * Block)) (r : AudioRecorder) :
  streams_opened r ->
  (forall s, size_in_step s r) ->
  within_one_chunk r ->
  Forall (fits_one_chunk r) blocks ->
  returns (deliver blocks) r = true /\
  within_one_chunk (exec (deliver blocks) r) /\
  (forall s, size_in_step s (exec (deliver blocks) r)).
Proof.
  revert r. induction blocks as [|[source_name indata] rest IH];
    intros r Hopen Hsize Hshort Hall.
  - cbn. auto.
  - inversion Hall as [|? ? Hfit Hrest]; subst.
    destruct (push_keeps_backlog_short indata source_name r Hopen Hsize Hshort Hfit)
      as (Hr & Hrates & Hsize' & Hshort').
    set (r' := exec (_process_data indata source_name) r) in *.
    assert (streams_opened r') as Hopen'
      by (intros s; rewrite Hrates; apply Hopen).
    assert (Forall (fits_one_chunk r') rest) as Hrest'.
    { eapply Forall_impl; [|exact Hrest].
      intros b Hb sr0 Hsr0. apply Hb. now rewrite <- Hrates. }
    specialize (IH r' Hopen' Hsize' Hshort' Hrest').
    unfold returns, exec in *. cbn [deliver]. unfold bind.
    subst r'. destruct (_process_data indata source_name r) as [[[]|e] r1];
      cbn in *; [exact IH|discriminate].
Qed.

(** *** Opening the streams *)

(** C4 (as the code has it). On a recorder that has no streams yet, if
    either device cannot be opened [start_recording] raises that device's
    error, and then no stream is running and no loopback stream exists;
    but the microphone stream, when it could be opened, is left open on
    the recorder (created, not started): nothing closes it. *)
Theorem open_failure_starts_nothing (r : AudioRecorder) :
  mic_stream r = None ->
  loopback_stream r = None ->
  (exists e, sd_InputStream (mic_id r) = Raise e) \/
  (exists e, sd_InputStream (loopback_id r) = Raise e) ->
  let r' := exec start_recording r in
  (exists e, fst (start_recording r) = Raise e /\
             (sd_InputStream (mic_id r) = Raise e \/
              sd_InputStream (loopback_id r) = Raise e)) /\
  is_running (mic_stream r') = false /\
  is_running (loopback_stream r') = false /\
  loopback_stream r' = None /\
  is_open (mic_stream r') =
    match sd_InputStream (mic_id r) with Ret _ => true | Raise _ => false end.
Proof.
  intros Hmic Hloop Hfail.
  unfold exec, start_recording, bind, get, call, modify.
  destruct (sd_InputStream (mic_id r)) as [mic_rate|e_mic] eqn:Emic.
  - destruct Hfail as [[e He]|[e He]]; [discriminate|].
    assert (loopback_id (set_mic_stream
                           (Some (mkInputStream (mic_id r) mic_rate false false)) r)
            = loopback_id r) as Hid by (now destruct r).
    cbn beta iota. rewrite He. cbn [fst snd].
    split; [exists e; auto|].
    destruct r; cbn in *; subst; auto.
  - cbn [fst snd]. rewrite Hmic, Hloop. cbn. split; [exists e_mic; auto|]. auto.
Qed.

(** *** Ending a file recording *)

(** Whatever else happens, the method first clears the flag and empties
    both recording buffers, and changes nothing after that. *)
Lemma stop_audio_file_writing_state (r : AudioRecorder) :
  exec stop_audio_file_writing r =
    set_loopback_file_buffer [] (set_mic_file_buffer [] (set_is_writing_audio false r)).
Proof.
  destruct r as [? ? ? ? ? ? ? ? ? ? ? [?|] [?|] ? ? [|? ?] [|? ?] ? [[|? ?]|]];
    unfold exec, stop_audio_file_writing, mix_track, resample, bind, get, modify, ret, raise;
    cbn;
    repeat match goal with
           | |- context [if ?b then _ else _] => destruct b; cbn
           | |- context [match torchaudio_save ?a ?b ?c with _ => _ end] =>
               destruct (torchaudio_save a b c); cbn
           end;
    reflexivity.
Qed.

(** The clearing holds for every call, also one that goes on to mix, to
    save, or to raise. *)
Lemma stop_always_clears (r : AudioRecorder) :
  let r' := exec stop_audio_file_writing r in
  is_writing_audio r' = false /\ mic_file_buffer r' = [] /\ loopback_file_buffer r' = [].
Proof.
  cbv zeta. rewrite stop_audio_file_writing_state. now destruct r.
Qed.

Lemma stop_returns_none (r : AudioRecorder) :
  path_set (mixed_audio_path r) = false \/
  (mic_file_buffer r = [] /\ loopback_file_buffer r = []) ->
  fst (stop_audio_file_writing r) = Ret None.
Proof.
  intros H.
  unfold stop_audio_file_writing, bind, get, modify, ret.
  assert (forall f, mixed_audio_path (set_is_writing_audio f r) = mixed_audio_path r)
    as Hp by (now destruct r).
  assert (forall f, mic_file_buffer (set_is_writing_audio f r) = mic_file_buffer r)
    as Hm by (now destruct r).
  assert (forall f, loopback_file_buffer (set_is_writing_audio f r) = loopback_file_buffer r)
    as Hl by (now destruct r).
  cbn beta iota. rewrite Hp, Hm, Hl.
  destruct H as [H|[H1 H2]].
  - rewrite H. reflexivity.
  - rewrite H1, H2. destruct (path_set (mixed_audio_path r)); reflexivity.
Qed.

(** C8. Every call of [stop_audio_file_writing] leaves the writing flag
    cleared and both recording buffers empty, whatever it goes on to do;
    and when the path was never set, or both recording buffers are empty,
    it returns [None] and does not raise. *)
Theorem stop_without_recording_returns_none (r : AudioRecorder) :
  let r' := exec stop_audio_file_writing r in
  (is_writing_audio r' = false /\ mic_file_buffer r' = [] /\ loopback_file_buffer r' = []) /\
  (path_set (mixed_audio_path r) = false \/
   (mic_file_buffer r = [] /\ loopback_file_buffer r = []) ->
   fst (stop_audio_file_writing r) = Ret None).
Proof.
  split; [apply stop_always_clears|apply stop_returns_none].
Qed.

(** *** What a sequence of blocks leaves behind *)

(** The blocks of one stream among those delivered, in order, and their
    samples. *)
Definition blocks_of (source_name : Source) (blocks : list (Source * Block)) : list Block :=
  map snd (filter (fun b => Source_eqb (fst b) source_name) blocks).

Definition samples_of (source_name : Source) (blocks : list (Source * Block)) : Block :=
  concat (blocks_of source_name blocks).

(** The chunks of one stream among a list of chunks. *)
Definition chunks_of (source_name : Source) (chunks : list (Source * Block)) : list Block :=
  blocks_of source_name chunks.

Lemma push_returns (indata : Block) (source_name : Source) (r : AudioRecorder) :
  source_samplerate source_name r <> None ->
  returns (_process_data indata source_name) r = true.
Proof.
  intros H. destruct (source_samplerate source_name r) as [sr|] eqn:Hsr; [|congruence].
  destruct (Z.lt_ge_cases (buffer_size source_name r + len indata) (frames_per_chunk_of sr)).
  - now apply (push_below indata source_name r sr).
  - now apply (push_reaching indata source_name r sr).
Qed.

(** What one push does besides chunking, whether it returns or raises. *)
Lemma push_bookkeeping (indata : Block) (source_name : Source) (r : AudioRecorder) :
  let r' := exec (_process_data indata source_name) r in
  is_writing_audio r' = is_writing_audio r /\
  mixed_audio_path r' = mixed_audio_path r /\
  (forall s, file_buffer s r' =
             file_buffer s r ++
               if is_writing_audio r && Source_eqb s source_name then [indata] else []) /\
  level_callback r' =
    option_map (fun seen => seen ++ [(source_name, level_rms indata)]) (level_callback r) /\
  loopback_silence_warning_shown r' =
    loopback_silence_warning_shown r ||
      (Source_eqb source_name LOOPBACK && mean_abs_below indata 100).
Proof.
  destruct r as [? ? ? [?|] ? ? ? ? [|] ? ? [?|] [?|] ? ? ? ? [|] ?];
    destruct source_name, (mean_abs_below indata 100) eqn:Em;
    unfold exec, _process_data, bind, get, modify, when, ret, raise;
    cbn; rewrite ?Em; cbn;
    try match goal with
        | |- context [?a <=? ?b] => destruct (a <=? b)
        end;
    cbn; repeat split; auto; intros []; cbn; rewrite ?app_nil_r; reflexivity.
Qed.

(** One push, as chunks taken and samples kept. *)
Lemma push_one (indata : Block) (source_name : Source) (r : AudioRecorder) (sr : Z) :
  source_samplerate source_name r = Some sr ->
  size_in_step source_name r ->
  0 <= sr ->
  let r' := exec (_process_data indata source_name) r in
  exists taken : list Block,
    transcription_queue r' =
      transcription_queue r ++ map (queued_chunk source_name r) taken /\
    concat taken ++ backlog source_name r' = backlog source_name r ++ indata /\
    Forall (fun chunk => len chunk = frames_per_chunk_of sr) taken /\
    (length taken <= 1)%nat /\
    size_in_step source_name r'.
Proof.
  intros Hsr Hsize Hpos r'. unfold size_in_step in *.
  destruct (Z.lt_ge_cases (buffer_size source_name r + len indata) (frames_per_chunk_of sr))
    as [Hlt|Hge].
  - destruct (push_below indata source_name r sr Hsr Hlt) as (_ & Hq & Hbk & Hsz).
    fold r' in Hq, Hbk, Hsz. exists []. cbn. rewrite app_nil_r.
    repeat split; auto. rewrite Hbk, Hsz, len_app. lia.
  - destruct (push_reaching indata source_name r sr Hsr Hge) as (_ & Hq & Hbk & Hsz).
    fold r' in Hq, Hbk, Hsz.
    exists [slice_to (backlog source_name r ++ indata) (frames_per_chunk_of sr)].
    cbn [map concat length]. rewrite app_nil_r, Hbk, slice_to_from.
    repeat split; auto; try congruence.
    constructor; [|constructor]. apply slice_to_len. rewrite len_app.
    unfold frames_per_chunk_of, CHUNK_SECONDS in *. lia.
Qed.

Lemma queued_chunk_frame (indata : Block) (source_name s : Source) (r : AudioRecorder)
    (chunk : Block) :
  queued_chunk s (exec (_process_data indata source_name) r) chunk = queued_chunk s r chunk.
Proof.
  unfold queued_chunk.
  destruct (push_frame indata source_name s r) as (_ & Hres & _). now rewrite Hres.
Qed.

Lemma source_eqb_eq (a b : Source) : Source_eqb a b = true <-> a = b.
Proof. destruct a, b; cbn; split; congruence. Qed.

(** Streams opened at a rate that is not negative, with the size
    attributes in step with the buffers. *)
Definition ready (r : AudioRecorder) : Prop :=
  streams_opened r /\
  (forall s, size_in_step s r) /\
  (forall s sr, source_samplerate s r = Some sr -> 0 <= sr).

Lemma push_ready (indata : Block) (source_name : Source) (r : AudioRecorder) :
  ready r -> ready (exec (_process_data indata source_name) r).
Proof.
  intros (Hopen & Hsize & Hpos).
  assert (Hrates : forall s, source_samplerate s (exec (_process_data indata source_name) r)
                             = source_samplerate s r)
    by (intros s; apply (push_frame indata source_name s r)).
  split; [|split].
  - intros s. rewrite Hrates. apply Hopen.
  - intros s. destruct (Source_eqb s source_name) eqn:E.
    + apply source_eqb_eq in E. subst s.
      destruct (source_samplerate source_name r) as [sr|] eqn:Hsr;
        [|now destruct (Hopen source_name)].
      destruct (push_one indata source_name r sr Hsr (Hsize _) (Hpos _ _ Hsr))
        as (_ & _ & _ & _ & _ & H). exact H.
    + assert (s <> source_name) as Hne by (intros ->; destruct source_name; discriminate).
      destruct (push_frame indata source_name s r) as (_ & _ & Hother).
      destruct (Hother Hne) as (Hbk & Hbs).
      unfold size_in_step. rewrite Hbk, Hbs. apply Hsize.
  - intros s sr. rewrite Hrates. apply Hpos.
Qed.

Lemma blocks_of_same (s : Source) (l : list Block) (rest : list (Source * Block)) :
  blocks_of s (map (pair s) l ++ rest) = l ++ blocks_of s rest.
Proof.
  unfold blocks_of. rewrite filter_app, map_app. f_equal.
  induction l as [|x l IH]; [reflexivity|].
  cbn. replace (Source_eqb s s) with true by (now destruct s). cbn. now rewrite IH.
Qed.

Lemma blocks_of_other (s s' : Source) (l : list Block) (rest : list (Source * Block)) :
  s' <> s -> blocks_of s' (map (pair s) l ++ rest) = blocks_of s' rest.
Proof.
  intros Hne. unfold blocks_of. rewrite filter_app, map_app.
  replace (filter _ (map (pair s) l)) with (@nil (Source * Block)); [reflexivity|].
  induction l as [|x l IH]; [reflexivity|].
  cbn. replace (Source_eqb s s') with false; [exact IH|].
  destruct s, s'; try reflexivity; congruence.
Qed.

(** X1. Whatever the sizes of the blocks delivered, no sample is lost,
    duplicated or reordered: for each stream, the chunks taken off for the
    queue, in queue order, followed by the backlog are the old backlog
    followed by the samples delivered; every chunk taken is exactly
    [frames_per_chunk] samples long, and what is queued is each chunk
    scaled (and resampled when the stream has a resampler), tagged with
    its source. *)
Theorem no_sample_lost_or_reordered (blocks : list (Source * Block)) (r : AudioRecorder) :
  ready r ->
  let r' := exec (deliver blocks) r in
  exists chunks : list (Source * Block),
    returns (deliver blocks) r = true /\
    transcription_queue r' =
      transcription_queue r ++ map (fun c => queued_chunk (fst c) r (snd c)) chunks /\
    (forall s, concat (chunks_of s chunks) ++ backlog s r' = backlog s r ++ samples_of s blocks) /\
    (forall s sr, source_samplerate s r = Some sr ->
                  Forall (fun chunk => len chunk = frames_per_chunk_of sr) (chunks_of s chunks)).
Proof.
  revert r. induction blocks as [|[source_name indata] rest IH]; intros r Hready.
  - exists []. cbn. rewrite app_nil_r. repeat split; auto.
    intros s. unfold samples_of. cbn. now rewrite app_nil_r.
  - pose proof (push_ready indata source_name r Hready) as Hready'.
    destruct Hready as (Hopen & Hsize & Hpos).
    destruct (source_samplerate source_name r) as [sr|] eqn:Hsr;
      [|now destruct (Hopen source_name)].
    destruct (push_one indata source_name r sr Hsr (Hsize _) (Hpos _ _ Hsr))
      as (taken & Hq & Hkeep & Hlen & _ & _).
    pose proof (push_returns indata source_name r (Hopen source_name)) as Hret.
    set (r1 := exec (_process_data indata source_name) r) in *.
    destruct (IH r1 Hready') as (chunks & Hret' & Hq' & Hkeep' & Hlen').
    exists (map (pair source_name) taken ++ chunks).
    assert (Hexec : exec (deliver ((source_name, indata) :: rest)) r = exec (deliver rest) r1).
    { unfold returns, exec in *. cbn [deliver]. unfold bind. subst r1.
      destruct (_process_data indata source_name r) as [[[]|e] r2]; [reflexivity|discriminate]. }
    split; [|split; [|split]].
    + unfold returns, exec in *. cbn [deliver]. unfold bind. subst r1.
      destruct (_process_data indata source_name r) as [[[]|e] r2];
        [exact Hret'|discriminate].
    + cbv zeta. rewrite Hexec, Hq', Hq, map_app, map_map, <- app_assoc. cbn [fst snd].
      do 2 f_equal. apply map_ext. intros c. subst r1. apply queued_chunk_frame.
    + intros s. cbv zeta. rewrite Hexec. unfold chunks_of, samples_of in *.
      destruct (Source_eqb s source_name) eqn:E.
      * apply source_eqb_eq in E. subst s.
        rewrite blocks_of_same, concat_app, <- app_assoc, Hkeep'.
        replace (blocks_of source_name ((source_name, indata) :: rest))
          with (indata :: blocks_of source_name rest)
          by (unfold blocks_of; cbn; now destruct source_name).
        cbn [concat]. rewrite app_assoc, Hkeep, <- app_assoc. reflexivity.
      * assert (s <> source_name) as Hne by (intros ->; destruct source_name; discriminate).
        rewrite (blocks_of_other _ _ _ _ Hne), Hkeep'.
        destruct (push_frame indata source_name s r) as (_ & _ & Hother).
        destruct (Hother Hne) as (Hbk & _). fold r1 in Hbk. rewrite Hbk.
        replace (blocks_of s ((source_name, indata) :: rest)) with (blocks_of s rest);
          [reflexivity|].
        unfold blocks_of. cbn. replace (Source_eqb source_name s) with false; [reflexivity|].
        destruct s, source_name; try reflexivity; congruence.
    + intros s sr' Hsr'. unfold chunks_of.
      assert (source_samplerate s r1 = Some sr') as Hsr1
        by (subst r1; destruct (push_frame indata source_name s r) as (-> & _); exact Hsr').
      specialize (Hlen' s sr' Hsr1). unfold chunks_of in Hlen'.
      destruct (Source_eqb s source_name) eqn:E.
      * apply source_eqb_eq in E. subst s. rewrite blocks_of_same.
        apply Forall_app. split; [|exact Hlen'].
        rewrite Hsr in Hsr'. inversion Hsr'; subst. exact Hlen.
      * assert (s <> source_name) as Hne by (intros ->; destruct source_name; discriminate).
        now rewrite (blocks_of_other _ _ _ _ Hne).
Qed.

(** The number of chunks of one stream on the transcription queue. *)
Definition queued_for (source_name : Source) (r : AudioRecorder) : Z :=
  len (filter (fun c => Source_eqb (snd c) source_name) (transcription_queue r)).

Lemma queued_for_push (indata : Block) (source_name s : Source) (r : AudioRecorder)
    (taken : list Block) :
  transcription_queue (exec (_process_data indata source_name) r) =
    transcription_queue r ++ map (queued_chunk source_name r) taken ->
  queued_for s (exec (_process_data indata source_name) r) =
    queued_for s r + if Source_eqb s source_name then len taken else 0.
Proof.
  intros Hq. unfold queued_for. rewrite Hq, filter_app, len_app. f_equal.
  unfold queued_chunk. clear Hq.
  induction taken as [|c taken IH]; [now destruct (Source_eqb s source_name)|].
  cbn [map filter snd].
  destruct s, source_name; cbn in *; unfold len in *; cbn [length]; try lia; exact IH.
Qed.

(** Sample counts add up: a chunk on the queue stands for
    [frames_per_chunk] samples. *)
Lemma push_counts (indata : Block) (source_name s : Source) (r : AudioRecorder) (sr : Z) :
  ready r ->
  source_samplerate s r = Some sr ->
  let r' := exec (_process_data indata source_name) r in
  queued_for s r' * frames_per_chunk_of sr + len (backlog s r') =
    queued_for s r * frames_per_chunk_of sr + len (backlog s r)
    + if Source_eqb s source_name then len indata else 0.
Proof.
  intros (Hopen & Hsize & Hpos) Hsr r'.
  destruct (source_samplerate source_name r) as [sr0|] eqn:Hsr0;
    [|now destruct (Hopen source_name)].
  destruct (push_one indata source_name r sr0 Hsr0 (Hsize _) (Hpos _ _ Hsr0))
    as (taken & Hq & Hkeep & Hlen & _ & _).
  fold r' in Hq, Hkeep. subst r'.
  rewrite (queued_for_push indata source_name s r taken Hq).
  destruct (Source_eqb s source_name) eqn:E.
  - apply source_eqb_eq in E. subst s. rewrite Hsr in Hsr0. inversion Hsr0; subst sr0.
    assert (len (concat taken) = len taken * frames_per_chunk_of sr) as Hsum.
    { clear Hkeep Hq. induction Hlen as [|c taken Hc _ IH]; [reflexivity|].
      cbn [concat]. rewrite len_app, IH, Hc. unfold len. cbn [length]. lia. }
    apply (f_equal len) in Hkeep. rewrite !len_app, Hsum in Hkeep. lia.
  - assert (s <> source_name) as Hne by (intros ->; destruct source_name; discriminate).
    destruct (push_frame indata source_name s r) as (_ & _ & Hother).
    destruct (Hother Hne) as (Hbk & _). rewrite Hbk. lia.
Qed.

(** X2. When no block is longer than one chunk of its stream, chunking
    does not depend on how the samples were cut into blocks: after any
    delivery, the number of chunks queued for a stream has grown by the
    whole number of chunks in (old backlog + samples delivered), and the
    backlog is the remainder. *)
Theorem chunking_is_increment_invariant (blocks : list (Source * Block))
    (r : AudioRecorder) (s : Source) (sr : Z) :
  ready r ->
  within_one_chunk r ->
  Forall (fits_one_chunk r) blocks ->
  source_samplerate s r = Some sr ->
  let r' := exec (deliver blocks) r in
  let total := len (backlog s r) + len (samples_of s blocks) in
  queued_for s r' = queued_for s r + total / frames_per_chunk_of sr /\
  len (backlog s r') = total mod frames_per_chunk_of sr.
Proof.
  intros Hready Hshort Hfits Hsr.
  assert (Hinv :
            queued_for s (exec (deliver blocks) r) * frames_per_chunk_of sr
            + len (backlog s (exec (deliver blocks) r)) =
              queued_for s r * frames_per_chunk_of sr + len (backlog s r)
              + len (samples_of s blocks) /\
            len (backlog s (exec (deliver blocks) r)) < frames_per_chunk_of sr).
  { revert r Hready Hshort Hfits Hsr.
    induction blocks as [|[source_name indata] rest IH]; intros r Hready Hshort Hfits Hsr.
    - cbn. unfold samples_of. cbn. split; [unfold len; cbn; lia|now apply Hshort].
    - inversion Hfits as [|? ? Hfit Hrest]; subst.
      pose proof (push_ready indata source_name r Hready) as Hready'.
      pose proof (push_counts indata source_name s r sr Hready Hsr) as Hcount.
      destruct Hready as (Hopen & Hsize & Hpos).
      destruct (push_keeps_backlog_short indata source_name r Hopen Hsize Hshort Hfit)
        as (Hret & Hrates & _ & Hshort').
      set (r1 := exec (_process_data indata source_name) r) in *.
      assert (Hexec : exec (deliver ((source_name, indata) :: rest)) r = exec (deliver rest) r1).
      { unfold returns, exec in *. cbn [deliver]. unfold bind. subst r1.
        destruct (_process_data indata source_name r) as [[[]|e] r2];
          [reflexivity|discriminate]. }
      assert (Forall (fits_one_chunk r1) rest) as Hrest'.
      { eapply Forall_impl; [|exact Hrest].
        intros b Hb sr0 Hsr0. apply Hb. now rewrite <- Hrates. }
      assert (source_samplerate s r1 = Some sr) as Hsr1 by (now rewrite Hrates).
      destruct (IH r1 Hready' Hshort' Hrest' Hsr1) as (Hsum & Hlt).
      rewrite Hexec. split; [|exact Hlt].
      rewrite Hsum, Hcount. unfold samples_of, blocks_of. cbn [filter fst snd].
      destruct (Source_eqb s source_name) eqn:E.
      + apply source_eqb_eq in E. subst s.
        replace (Source_eqb source_name source_name) with true by (now destruct source_name).
        cbn [map concat snd]. rewrite len_app. lia.
      + replace (Source_eqb source_name s) with false
          by (destruct s, source_name; cbn in *; congruence).
        lia. }
  destruct Hinv as (Hsum & Hlt). cbv zeta.
  pose proof (len_nonneg (backlog s (exec (deliver blocks) r))) as Hnn.
  set (q' := queued_for s (exec (deliver blocks) r)) in *.
  set (b' := len (backlog s (exec (deliver blocks) r))) in *.
  set (fpc := frames_per_chunk_of sr) in *.
  assert (len (backlog s r) + len (samples_of s blocks) = (q' - queued_for s r) * fpc + b')
    as Htotal by lia.
  rewrite Htotal. split.
  - rewrite Z.div_add_l by lia. rewrite Z.div_small by lia. lia.
  - rewrite Z.add_comm, Z.mod_add by lia. now rewrite Z.mod_small by lia.
Qed.

(** A loopback block quiet enough for the one-time warning. *)
Definition quiet_loopback (b : Source * Block) : bool :=
  Source_eqb (fst b) LOOPBACK && mean_abs_below (snd b) 100.

(** The bookkeeping of a whole delivery on opened streams. *)
Lemma deliver_bookkeeping (blocks : list (Source * Block)) (r : AudioRecorder) :
  streams_opened r ->
  let r' := exec (deliver blocks) r in
  returns (deliver blocks) r = true /\
  streams_opened r' /\
  (forall s, source_samplerate s r' = source_samplerate s r) /\
  is_writing_audio r' = is_writing_audio r /\
  mixed_audio_path r' = mixed_audio_path r /\
  (forall s, file_buffer s r' =
             file_buffer s r ++ if is_writing_audio r then blocks_of s blocks else []) /\
  level_callback r' =
    option_map (fun seen => seen ++ map (fun b => (fst b, level_rms (snd b))) blocks)
      (level_callback r) /\
  loopback_silence_warning_shown r' =
    loopback_silence_warning_shown r || existsb quiet_loopback blocks.
Proof.
  revert r. induction blocks as [|[source_name indata] rest IH]; intros r Hopen.
  - cbn. repeat split; auto.
    + intros s. destruct (is_writing_audio r); cbn; now rewrite app_nil_r.
    + destruct (level_callback r); cbn; now rewrite ?app_nil_r.
    + now rewrite orb_false_r.
  - pose proof (push_returns indata source_name r (Hopen source_name)) as Hret.
    destruct (push_bookkeeping indata source_name r) as (Hw & Hp & Hf & Hl & Hs).
    assert (Hrates : forall s, source_samplerate s (exec (_process_data indata source_name) r)
                               = source_samplerate s r)
      by (intros s; apply (push_frame indata source_name s r)).
    set (r1 := exec (_process_data indata source_name) r) in *.
    assert (streams_opened r1) as Hopen1 by (intros s; rewrite Hrates; apply Hopen).
    destruct (IH r1 Hopen1) as (Hret' & Hopen' & Hrates' & Hw' & Hp' & Hf' & Hl' & Hs').
    assert (Hexec : exec (deliver ((source_name, indata) :: rest)) r = exec (deliver rest) r1).
    { unfold returns, exec in *. cbn [deliver]. unfold bind. subst r1.
      destruct (_process_data indata source_name r) as [[[]|e] r2];
        [reflexivity|discriminate]. }
    cbv zeta. rewrite Hexec.
    split; [|repeat split].
    + unfold returns, exec in *. cbn [deliver]. unfold bind. subst r1.
      destruct (_process_data indata source_name r) as [[[]|e] r2];
        [exact Hret'|discriminate].
    + exact Hopen'.
    + intros s. now rewrite Hrates', Hrates.
    + congruence.
    + congruence.
    + intros s. rewrite Hf', Hf, Hw, <- app_assoc. f_equal.
      unfold blocks_of. cbn [filter fst snd].
      destruct (is_writing_audio r); cbn [andb]; [|reflexivity].
      destruct s, source_name; reflexivity.
    + rewrite Hl', Hl. destruct (level_callback r); cbn; [|reflexivity].
      now rewrite <- app_assoc.
    + rewrite Hs', Hs. cbn [existsb]. unfold quiet_loopback at 2. cbn [fst snd].
      now rewrite orb_assoc.
Qed.

(** X3. While file writing is on, every block delivered is kept, whole and
    in order, in the recording buffer of its own stream; while it is off,
    the recording buffers do not grow. Delivery never switches the flag. *)
Theorem recording_buffers_follow_the_flag (blocks : list (Source * Block))
    (r : AudioRecorder) :
  streams_opened r ->
  let r' := exec (deliver blocks) r in
  is_writing_audio r' = is_writing_audio r /\
  (is_writing_audio r = true ->
   mic_file_buffer r' = mic_file_buffer r ++ blocks_of MIC blocks /\
   loopback_file_buffer r' = loopback_file_buffer r ++ blocks_of LOOPBACK blocks) /\
  (is_writing_audio r = false ->
   mic_file_buffer r' = mic_file_buffer r /\
   loopback_file_buffer r' = loopback_file_buffer r).
Proof.
  intros Hopen.
  destruct (deliver_bookkeeping blocks r Hopen) as (_ & _ & _ & Hw & _ & Hf & _).
  pose proof (Hf MIC) as Hm. pose proof (Hf LOOPBACK) as Hl. cbn in Hm, Hl.
  split; [exact Hw|]. split; intros Hflag; rewrite Hflag in Hm, Hl.
  - now split.
  - rewrite app_nil_r in Hm, Hl. now split.
Qed.

(** X4. The loopback silence flag is sticky and belongs to the loopback
    alone: after a delivery it is set exactly when it was set before or
    some loopback block had a mean absolute amplitude below 100;
    microphone blocks never set it and nothing clears it. *)
Theorem silence_warning_is_sticky (blocks : list (Source * Block)) (r : AudioRecorder) :
  streams_opened r ->
  let r' := exec (deliver blocks) r in
  (loopback_silence_warning_shown r' = true <->
   loopback_silence_warning_shown r = true \/
   exists indata, In (LOOPBACK, indata) blocks /\ mean_abs_below indata 100 = true).
Proof.
  intros Hopen.
  destruct (deliver_bookkeeping blocks r Hopen) as (_ & _ & _ & _ & _ & _ & _ & Hs).
  cbv zeta. rewrite Hs, orb_true_iff, existsb_exists.
  split; (intros [H|H]; [now left|right]).
  - destruct H as ([s indata] & Hin & Hq). unfold quiet_loopback in Hq. cbn in Hq.
    apply andb_true_iff in Hq. destruct Hq as (Hsrc & Hquiet).
    apply source_eqb_eq in Hsrc. subst s. now exists indata.
  - destruct H as (indata & Hin & Hq). exists (LOOPBACK, indata).
    split; [exact Hin|]. unfold quiet_loopback. cbn. exact Hq.
Qed.

(** X5. The level callback is called once for every block delivered, in
    delivery order, with the block's source and level, whether or not the
    block completed a chunk; without a level callback nothing is reported. *)
Theorem level_is_reported_per_block (blocks : list (Source * Block)) (r : AudioRecorder) :
  streams_opened r ->
  level_callback (exec (deliver blocks) r) =
    match level_callback r with
    | Some seen => Some (seen ++ map (fun b => (fst b, level_rms (snd b))) blocks)
    | None => None
    end.
Proof.
  intros Hopen.
  destruct (deliver_bookkeeping blocks r Hopen) as (_ & _ & _ & _ & _ & _ & Hl & _).
  cbv zeta in Hl. rewrite Hl. now destruct (level_callback r).
Qed.

(** *** What a recording session saves *)

(** One channel of the saved file: the blocks recorded for a stream,
    joined, scaled, and resampled unless the stream runs at the mix rate;
    nothing when no sample was recorded. *)
Definition track_of (rate : Z) (recorded : list Block) : Audio :=
  if truthy recorded then
    let tensor := to_float32 (concat recorded) in
    if rate =? MIX_SAMPLE_RATE then tensor
    else if truthy tensor then Resample rate MIX_SAMPLE_RATE tensor else []
  else [].

(** Blocks were recorded for a stream that does not run at the mix rate,
    but they hold no sample: the resampler is handed an empty tensor. *)
Definition resamples_nothing (rate : Z) (recorded : list Block) : bool :=
  truthy recorded && negb (rate =? MIX_SAMPLE_RATE)
  && negb (truthy (to_float32 (concat recorded))).

(** The outcome of saving two tracks: padded to the longer one and handed
    to [torchaudio.save], or nothing to save. *)
Definition saved (path : string) (left right : Audio) : outcome (option string) :=
  let n := Z.max (len left) (len right) in
  if 0 <? n then
    match torchaudio_save path (pad left (n - len left), pad right (n - len right))
            MIX_SAMPLE_RATE with
    | Ret _ => Ret (Some path)
    | Raise _ => Ret None
    end
  else Ret None.

(** The two tracks as [stop_audio_file_writing] makes them, one after the
    other, saved unless making one of them raised. *)
Definition mixed (path : string) (left right : outcome Audio) : outcome (option string) :=
  match left, right with
  | Ret mic_tensor, Ret loopback_tensor => saved path mic_tensor loopback_tensor
  | Raise e, _ | Ret _, Raise e => Raise e
  end.

Definition track_result (rate : Z) (recorded : list Block) : outcome Audio :=
  if resamples_nothing rate recorded then Raise (Exception "RuntimeError")
  else Ret (track_of rate recorded).

Lemma mix_track_value (copy : list Block) (rate : Z) (r : AudioRecorder) :
  mix_track copy (Some rate) r = (track_result rate copy, r).
Proof.
  unfold mix_track, track_result, resamples_nothing, track_of, resample.
  destruct (truthy copy); [|reflexivity]. cbv zeta.
  destruct (rate =? MIX_SAMPLE_RATE); [reflexivity|].
  now destruct (truthy (to_float32 (concat copy))).
Qed.

Lemma track_with_samples (rate : Z) (recorded : list Block) :
  0 < len (track_of rate recorded) ->
  track_result rate recorded = Ret (track_of rate recorded).
Proof.
  unfold track_result, resamples_nothing, track_of.
  destruct (truthy recorded); [|reflexivity]. cbv zeta.
  destruct (rate =? MIX_SAMPLE_RATE); [reflexivity|].
  destruct (truthy (to_float32 (concat recorded))); [reflexivity|].
  unfold len. cbn. lia.
Qed.

Lemma stop_audio_file_writing_tracks (r : AudioRecorder) (path : string)
    (left right : outcome Audio) :
  mixed_audio_path r = Some path ->
  path <> EmptyString ->
  (forall r0, mix_track (mic_file_buffer r) (mic_samplerate r) r0 = (left, r0)) ->
  (forall r0, mix_track (loopback_file_buffer r) (loopback_samplerate r) r0 = (right, r0)) ->
  fst (stop_audio_file_writing r) = mixed path left right.
Proof.
  intros Hp Hne Hleft Hright.
  destruct r as [? ? ? ? ? ? ? ? ? ? ? mrate lrate ? ? mic lb ? ?].
  cbn in Hp, Hleft, Hright. subst.
  destruct path as [|c path]; [congruence|].
  unfold stop_audio_file_writing, bind, get, modify, ret.
  cbn [set_is_writing_audio set_mic_file_buffer set_loopback_file_buffer
       mixed_audio_path mic_file_buffer loopback_file_buffer mic_samplerate
       loopback_samplerate path_set negb fst snd].
  destruct (truthy mic) eqn:Emic, (truthy lb) eqn:Elb; cbn [negb andb]; cbn beta;
    rewrite ?Hleft; try (destruct left as [mic_tensor|e_mic]; [|reflexivity];
    rewrite ?Hright; destruct right as [loopback_tensor|e_loopback]; [|reflexivity];
    unfold mixed, saved;
    destruct (0 <? _); [destruct (torchaudio_save _ _ _)|]; reflexivity).
  specialize (Hleft (__init__ 0 0 [] false)). specialize (Hright (__init__ 0 0 [] false)).
  unfold mix_track in Hleft, Hright. rewrite Emic in Hleft. rewrite Elb in Hright.
  inversion Hleft. inversion Hright. reflexivity.
Qed.

Lemma stop_audio_file_writing_value (r : AudioRecorder) (path : string) (mr lr : Z) :
  mixed_audio_path r = Some path ->
  path <> EmptyString ->
  mic_samplerate r = Some mr ->
  loopback_samplerate r = Some lr ->
  fst (stop_audio_file_writing r) =
    mixed path (track_result mr (mic_file_buffer r))
      (track_result lr (loopback_file_buffer r)).
Proof.
  intros Hp Hne Hm Hl. apply stop_audio_file_writing_tracks; auto.
  - intros r0. rewrite Hm. apply mix_track_value.
  - intros r0. rewrite Hl. apply mix_track_value.
Qed.

Lemma pad_length (t : Audio) (n : Z) : len t <= n -> len (pad t (n - len t)) = n.
Proof.
  intros H. unfold pad. rewrite len_app. unfold len in *. rewrite repeat_length. lia.
Qed.

(** X6. A recording session, end to end: begin with a path, deliver any
    blocks, end. If a stream that does not run at the mix rate delivered
    blocks but not one sample, the resampler is handed an empty tensor and
    the method raises [RuntimeError]. In every other case it hands
    [torchaudio.save] the path given at the beginning and two channels of
    equal length at the mix rate -- left the microphone blocks delivered
    since the beginning, right the loopback blocks, each joined in order,
    scaled, resampled if its stream does not run at the mix rate, and
    padded with zeros to the longer one -- and returns the path if saving
    succeeds, [None] if saving raises or if neither channel holds a
    sample. Either way writing is off and both recording buffers are empty
    afterwards. *)
Theorem recording_session_saves_what_was_delivered (path : string)
    (blocks : list (Source * Block)) (r : AudioRecorder) (mr lr : Z) :
  mic_samplerate r = Some mr ->
  loopback_samplerate r = Some lr ->
  path <> EmptyString ->
  let session :=
    start_audio_file_writing path ;; deliver blocks ;; stop_audio_file_writing in
  let left := track_of mr (blocks_of MIC blocks) in
  let right := track_of lr (blocks_of LOOPBACK blocks) in
  let n := Z.max (len left) (len right) in
  fst (session r) =
    (if resamples_nothing mr (blocks_of MIC blocks)
        || resamples_nothing lr (blocks_of LOOPBACK blocks)
     then Raise (Exception "RuntimeError")
     else saved path left right) /\
  len (pad left (n - len left)) = len (pad right (n - len right)) /\
  is_writing_audio (exec session r) = false /\
  mic_file_buffer (exec session r) = [] /\
  loopback_file_buffer (exec session r) = [].
Proof.
  intros Hm Hl Hne. cbv zeta.
  remember (exec (start_audio_file_writing path) r) as r1 eqn:Er1.
  assert (mic_samplerate r1 = Some mr /\ loopback_samplerate r1 = Some lr /\
          mixed_audio_path r1 = Some path /\ is_writing_audio r1 = true /\
          mic_file_buffer r1 = [] /\ loopback_file_buffer r1 = [])
    as (Hm1 & Hl1 & Hp1 & Hw1 & Hmf1 & Hlf1)
    by (subst r1; destruct r; unfold exec, start_audio_file_writing, bind, modify;
        cbn in *; repeat split; assumption).
  assert (start_audio_file_writing path r = (Ret tt, r1)) as Hstart
    by (subst r1; now destruct r).
  clear Er1.
  assert (streams_opened r1) as Hopen1
    by (intros []; unfold source_samplerate; rewrite ?Hm1, ?Hl1; discriminate).
  destruct (deliver_bookkeeping blocks r1 Hopen1)
    as (Hret & _ & Hrates & _ & Hp2 & Hf2 & _).
  remember (exec (deliver blocks) r1) as r2 eqn:Er2.
  pose proof (Hrates MIC) as Hm2. pose proof (Hrates LOOPBACK) as Hl2.
  pose proof (Hf2 MIC) as Hmf2. pose proof (Hf2 LOOPBACK) as Hlf2.
  unfold source_samplerate, file_buffer in Hm2, Hl2, Hmf2, Hlf2.
  rewrite Hw1, ?Hmf1, ?Hlf1 in Hmf2, Hlf2. cbn [app] in Hmf2, Hlf2.
  assert (Hsession :
            (start_audio_file_writing path ;; deliver blocks ;; stop_audio_file_writing) r =
              stop_audio_file_writing r2).
  { unfold bind at 1. rewrite Hstart.
    unfold bind. unfold returns, exec in *. subst r2.
    destruct (deliver blocks r1) as [[[]|e] r3]; [reflexivity|discriminate]. }
  unfold exec. rewrite Hsession.
  split; [|split].
  - rewrite (stop_audio_file_writing_value r2 path mr lr); try congruence.
    rewrite Hmf2, Hlf2, Hmf1, Hlf1. cbn [app]. unfold mixed, track_result.
    destruct (resamples_nothing mr (blocks_of MIC blocks)); [reflexivity|].
    destruct (resamples_nothing lr (blocks_of LOOPBACK blocks)); reflexivity.
  - rewrite !pad_length; lia.
  - apply (stop_always_clears r2).
Qed.

(** X7. A recording in which only the microphone delivered blocks is
    saved as two channels: the microphone track unchanged, and as many
    zeros for the loopback. *)
Theorem microphone_only_recording (r : AudioRecorder) (path : string) (mr : Z) :
  mixed_audio_path r = Some path ->
  path <> EmptyString ->
  mic_samplerate r = Some mr ->
  loopback_file_buffer r = [] ->
  let mic_track := track_of mr (mic_file_buffer r) in
  0 < len mic_track ->
  fst (stop_audio_file_writing r) =
    match torchaudio_save path (mic_track, repeat (0 # 1)%Q (length mic_track))
            MIX_SAMPLE_RATE with
    | Ret _ => Ret (Some path)
    | Raise _ => Ret None
    end.
Proof.
  intros Hp Hne Hm Hlb mic_track Hlen.
  assert (fst (stop_audio_file_writing r) = saved path mic_track []) as ->.
  { apply (stop_audio_file_writing_tracks r path (Ret mic_track) (Ret [])); auto.
    - intros r0. rewrite Hm, mix_track_value. now rewrite track_with_samples.
    - intros r0. now rewrite Hlb. }
  unfold saved. change (len (@nil Q)) with 0.
  rewrite Z.max_l by lia.
  replace (0 <? len mic_track) with true by (symmetry; now apply Z.ltb_lt).
  unfold pad. rewrite Z.sub_diag, Z.sub_0_r. cbn [Z.to_nat repeat app].
  rewrite app_nil_r. unfold len. now rewrite Nat2Z.id.
Qed.

(** *** Starting the streams *)

(** [start_recording] when both devices open. *)
Lemma start_recording_opened (r : AudioRecorder) (mr lr : Z) :
  sd_InputStream (mic_id r) = Ret mr ->
  sd_InputStream (loopback_id r) = Ret lr ->
  let mic := mkInputStream (mic_id r) mr in
  let loopback := mkInputStream (loopback_id r) lr in
  let configured (m l : bool) :=
    (if lr =? WHISPER_SAMPLE_RATE then fun r => r
     else set_loopback_resampler (Some (lr, WHISPER_SAMPLE_RATE)))
      ((if mr =? WHISPER_SAMPLE_RATE then fun r => r
        else set_mic_resampler (Some (mr, WHISPER_SAMPLE_RATE)))
         (set_loopback_samplerate (Some lr)
            (set_mic_samplerate (Some mr)
               (set_loopback_stream (Some (loopback l false))
                  (set_mic_stream (Some (mic m false)) r))))) in
  start_recording r =
    match sd_start (mic_id r), sd_start (loopback_id r) with
    | Raise e, _ => (Raise e, configured false false)
    | Ret _, Raise e => (Raise e, configured true false)
    | Ret _, Ret _ => (Ret tt, configured true true)
    end.
Proof.
  intros Hm Hl. cbv zeta.
  unfold start_recording, bind, get, call, modify, when, ret.
  rewrite Hm. cbn beta iota.
  rewrite Hl. cbn beta iota.
  destruct r as [mid lid ? ? ? ? ? ? ? ? ? ? ? ? ? ? ? ? ?]. cbn.
  destruct (mr =? WHISPER_SAMPLE_RATE), (lr =? WHISPER_SAMPLE_RATE); cbn;
    destruct (sd_start mid) as [[]|?]; cbn; try reflexivity;
    destruct (sd_start lid) as [[]|?]; reflexivity.
Qed.

(** X8. When both devices open and both streams start, [start_recording]
    returns with both streams running, each stream's rate recorded, and a
    resampler to the transcription rate attached to a stream exactly when
    its own rate differs from it -- decided for the microphone and the
    loopback separately. *)
Theorem start_recording_attaches_resamplers (r : AudioRecorder) (mr lr : Z) :
  sd_InputStream (mic_id r) = Ret mr ->
  sd_InputStream (loopback_id r) = Ret lr ->
  sd_start (mic_id r) = Ret tt ->
  sd_start (loopback_id r) = Ret tt ->
  mic_resampler r = None ->
  loopback_resampler r = None ->
  let r' := exec start_recording r in
  returns start_recording r = true /\
  is_running (mic_stream r') = true /\
  is_running (loopback_stream r') = true /\
  mic_samplerate r' = Some mr /\
  loopback_samplerate r' = Some lr /\
  mic_resampler r' =
    (if mr =? WHISPER_SAMPLE_RATE then None else Some (mr, WHISPER_SAMPLE_RATE)) /\
  loopback_resampler r' =
    (if lr =? WHISPER_SAMPLE_RATE then None else Some (lr, WHISPER_SAMPLE_RATE)).
Proof.
  intros Hm Hl Hsm Hsl Hrm Hrl.
  unfold exec, returns. rewrite (start_recording_opened r mr lr Hm Hl), Hsm, Hsl.
  destruct r. cbn in Hrm, Hrl. subst.
  destruct (mr =? WHISPER_SAMPLE_RATE), (lr =? WHISPER_SAMPLE_RATE); cbn; repeat split.
Qed.

(** X9. When both devices open but a stream fails to start,
    [start_recording] raises that error and leaves both streams open on
    the recorder; if it was the loopback that failed, the microphone
    stream is already running and is left running. *)
Theorem start_failure_leaves_streams_open (r : AudioRecorder) (mr lr : Z) (e : exn) :
  sd_InputStream (mic_id r) = Ret mr ->
  sd_InputStream (loopback_id r) = Ret lr ->
  sd_start (mic_id r) = Raise e \/
  (sd_start (mic_id r) = Ret tt /\ sd_start (loopback_id r) = Raise e) ->
  let r' := exec start_recording r in
  fst (start_recording r) = Raise e /\
  is_open (mic_stream r') = true /\
  is_open (loopback_stream r') = true /\
  is_running (loopback_stream r') = false /\
  is_running (mic_stream r') =
    match sd_start (mic_id r) with Ret _ => true | Raise _ => false end.
Proof.
  intros Hm Hl Hfail.
  unfold exec. rewrite (start_recording_opened r mr lr Hm Hl).
  destruct Hfail as [Hsm|[Hsm Hsl]]; rewrite Hsm, ?Hsl;
    destruct r; destruct (mr =? WHISPER_SAMPLE_RATE), (lr =? WHISPER_SAMPLE_RATE);
    cbn; repeat split.
Qed.

(** X10. A recorder fresh from [__init__] on which [start_recording]
    returned, with devices running at positive rates, is in the state the
    chunking results start from: rates known, sizes in step, backlogs
    empty and so shorter than a chunk; from there no delivery of blocks
    ever raises. *)
Theorem start_recording_makes_ready (mic loopback : Z) (queue : list (Audio * Source))
    (level_cb : bool) (blocks : list (Source * Block)) :
  let r := __init__ mic loopback queue level_cb in
  let r' := exec start_recording r in
  fst (start_recording r) = Ret tt ->
  (forall d rate, sd_InputStream d = Ret rate -> 0 < rate) ->
  ready r' /\ within_one_chunk r' /\ returns (deliver blocks) r' = true.
Proof.
  cbv zeta. intros Hret Hrates.
  destruct (sd_InputStream mic) as [mr|e] eqn:Hm.
  2: { unfold start_recording, bind, get, call in Hret. cbn in Hret.
       rewrite Hm in Hret. discriminate. }
  destruct (sd_InputStream loopback) as [lr|e] eqn:Hl.
  2: { unfold start_recording, bind, get, call, modify in Hret. cbn in Hret.
       rewrite Hm in Hret. cbn in Hret. rewrite Hl in Hret. discriminate. }
  pose proof (Hrates _ _ Hm) as Hmpos. pose proof (Hrates _ _ Hl) as Hlpos.
  unfold exec in *.
  rewrite (start_recording_opened (__init__ mic loopback queue level_cb) mr lr Hm Hl) in *.
  cbn [mic_id loopback_id __init__] in *.
  destruct (sd_start mic) as [[]|?]; [|discriminate].
  destruct (sd_start loopback) as [[]|?]; [|discriminate].
  cbn [snd].
  set (r' := (if lr =? WHISPER_SAMPLE_RATE then _ else _) _).
  assert (mic_samplerate r' = Some mr /\ loopback_samplerate r' = Some lr /\
          mic_buffer r' = [] /\ loopback_buffer r' = [] /\
          mic_buffer_size r' = 0 /\ loopback_buffer_size r' = 0)
    as (Hmr & Hlr & Hmb & Hlb & Hms & Hls)
    by (subst r'; destruct (mr =? WHISPER_SAMPLE_RATE), (lr =? WHISPER_SAMPLE_RATE);
        cbn; repeat split).
  assert (streams_opened r') as Hopen
    by (intros []; unfold source_samplerate; rewrite ?Hmr, ?Hlr; discriminate).
  split; [|split].
  - split; [exact Hopen|]. split.
    + intros []; unfold size_in_step, backlog, buffer_size, buffer_list;
        rewrite ?Hmb, ?Hlb, ?Hms, ?Hls; reflexivity.
    + intros [] sr; unfold source_samplerate; rewrite ?Hmr, ?Hlr;
        intros H; inversion H; subst; lia.
  - intros [] sr; unfold source_samplerate, backlog, buffer_list;
      rewrite ?Hmr, ?Hlr, ?Hmb, ?Hlb; intros H; inversion H; subst;
      unfold frames_per_chunk_of, CHUNK_SECONDS; cbn; lia.
  - now apply deliver_bookkeeping.
Qed.

End Host.

Arguments transcription_queue {Level} _.
Arguments mic_buffer_size {Level} _.
Arguments mic_stream {Level} _.
Arguments loopback_stream {Level} _.
Arguments backlog {Level} _ _.
Arguments buffer_size {Level} _ _.

(** *** Concrete runs *)

(** A host with no level callback, a pass-through resampler, and devices
    chosen by the two tables. *)
Definition no_level (_ : Block) : unit := tt.
Definition pass_through (_ _ : Z) (a : Audio) : Audio := a.

(** A recorder whose microphone runs at 16 kHz and whose loopback runs at
    44.1 kHz, as [start_recording] leaves it on such devices. *)
Definition recorder_16k_44k : AudioRecorder unit :=
  set_loopback_resampler unit (Some (44100, WHISPER_SAMPLE_RATE))
    (set_loopback_samplerate unit (Some 44100)
       (set_mic_samplerate unit (Some 16000) (__init__ unit 0 1 [] false))).

Definition silence (n : Z) : Block := repeat 0 (Z.to_nat n).

Definition push (indata : Block) (source_name : Source) : M (AudioRecorder unit) unit :=
  _process_data unit no_level pass_through indata source_name.

(** C1, as stated, fails: 480000 samples pushed at once into the empty
    16 kHz microphone stream are two chunks' worth (2 * 240000), yet one
    chunk is queued and 240000 samples stay behind. *)
Lemma two_chunks_in_one_push_counterexample :
  let r' := exec (push (silence 480000) MIC) recorder_16k_44k in
  len (silence 480000) = 2 * frames_per_chunk_of 16000 /\
  length (transcription_queue r') = 1%nat /\
  len (backlog MIC r') = 240000 /\
  ~ (length (transcription_queue r') = 2%nat /\ len (backlog MIC r') = 0).
Proof.
  vm_compute. repeat split; intros [H _]; discriminate H.
Qed.

Lemma push_of_N_chunks_emits_one_witness :
  let r' := exec (push (silence 240000) MIC) recorder_16k_44k in
  length (transcription_queue r') = 1%nat /\ buffer_size MIC r' = 0.
Proof.
  destruct (push_of_N_chunks_emits_one unit no_level pass_through
              (silence 240000) MIC recorder_16k_44k 16000 1)
    as (_ & Hq & _ & _ & Hs).
  - reflexivity.
  - reflexivity.
  - reflexivity.
  - lia.
  - vm_compute. reflexivity.
  - cbv zeta. split.
    + unfold push. rewrite Hq. reflexivity.
    + exact Hs.
Defined.

(** C3, as stated, fails on the same push: the backlog it leaves is a
    whole chunk long, not strictly shorter. *)
Lemma backlog_of_a_whole_chunk_counterexample :
  let r' := exec (push (silence 480000) MIC) recorder_16k_44k in
  returns (push (silence 480000) MIC) recorder_16k_44k = true /\
  mic_buffer_size r' = 240000 /\
  len (backlog MIC r') = frames_per_chunk_of 16000 /\
  ~ (len (backlog MIC r') < frames_per_chunk_of 16000).
Proof.
  vm_compute. repeat split. intros H. discriminate H.
Qed.

Lemma backlog_stays_below_one_chunk_witness :
  let blocks := [(MIC, silence 1024); (LOOPBACK, silence 1024); (MIC, silence 1024)] in
  let run := deliver unit no_level pass_through blocks in
  returns run recorder_16k_44k = true /\
  within_one_chunk unit (exec run recorder_16k_44k) /\
  (forall s, size_in_step unit s (exec run recorder_16k_44k)).
Proof.
  apply (backlog_stays_below_one_chunk unit no_level pass_through).
  - intros []; discriminate.
  - intros []; reflexivity.
  - intros [] sr H; inversion H; reflexivity.
  - repeat constructor; intros sr H; inversion H; vm_compute; discriminate.
Defined.

(** A host on which device 0 opens at 48 kHz and no other device opens. *)
Definition only_device_0 (d : Z) : outcome Z :=
  if d =? 0 then Ret 48000 else Raise (Exception "PortAudioError").

Definition starts (_ : Z) : outcome unit := Ret tt.

Definition saves (_ : string) (_ : Audio * Audio) (_ : Z) : outcome unit := Ret tt.

(** C4, as stated, fails: with microphone 0 and loopback 1 on that host,
    [start_recording] raises the loopback's error and the recorder is
    left holding the microphone stream, open. *)
Lemma mic_stream_left_open_counterexample :
  let r := __init__ unit 0 1 [] false in
  let r' := exec (start_recording unit only_device_0 starts) r in
  fst (start_recording unit only_device_0 starts r) = Raise (Exception "PortAudioError") /\
  mic_stream r' = Some (mkInputStream 0 48000 false false) /\
  is_open (mic_stream r') = true /\
  ~ (is_open (mic_stream r') = false).
Proof.
  vm_compute. repeat split. intros H. discriminate H.
Qed.

Lemma open_failure_starts_nothing_witness :
  let r := __init__ unit 0 1 [] false in
  let r' := exec (start_recording unit only_device_0 starts) r in
  is_running (mic_stream r') = false /\ is_running (loopback_stream r') = false.
Proof.
  cbv zeta.
  destruct (open_failure_starts_nothing unit only_device_0 starts
              (__init__ unit 0 1 [] false))
    as (_ & Hmic & Hloop & _).
  - reflexivity.
  - reflexivity.
  - right. exists (Exception "PortAudioError"). reflexivity.
  - split; [exact Hmic|exact Hloop].
Defined.

Lemma stop_without_recording_returns_none_witness :
  fst (stop_audio_file_writing unit pass_through saves (__init__ unit 0 1 [] false)) = Ret None.
Proof.
  apply (stop_without_recording_returns_none unit pass_through saves
           (__init__ unit 0 1 [] false)).
  left. reflexivity.
Defined.

(** A recording with microphone data only is saved with a silent second
    channel of the same length. *)
Example mic_only_recording_is_saved :
  let r := set_mic_file_buffer unit [[16384; -16384]; [0]]
             (set_mixed_audio_path unit (Some "meeting.wav"%string)
                (set_mic_samplerate unit (Some 48000) (__init__ unit 0 1 [] false))) in
  fst (stop_audio_file_writing unit pass_through saves r) = Ret (Some "meeting.wav"%string) /\
  fst (stop_audio_file_writing unit pass_through
         (fun _ tracks _ =>
            if Nat.eqb (length (fst tracks)) 3 && Nat.eqb (length (snd tracks)) 3
            then Ret tt else Raise (Exception "unequal")) r)
  = Ret (Some "meeting.wav"%string).
Proof.
  vm_compute. split; reflexivity.
Qed.

(** *** Runs of the delivery and session results *)

Lemma recorder_16k_44k_ready : ready unit recorder_16k_44k.
Proof.
  split; [|split].
  - intros []; discriminate.
  - intros []; reflexivity.
  - intros [] sr H; inversion H; lia.
Qed.

Definition two_blocks : list (Source * Block) :=
  [(MIC, silence 1024); (LOOPBACK, silence 1024)].

Lemma no_sample_lost_or_reordered_witness :
  returns (deliver unit no_level pass_through two_blocks) recorder_16k_44k = true.
Proof.
  pose proof (no_sample_lost_or_reordered unit no_level pass_through two_blocks
                recorder_16k_44k recorder_16k_44k_ready) as H.
  cbv zeta in H. destruct H as (chunks & Hret & _). exact Hret.
Defined.

Lemma chunking_is_increment_invariant_witness :
  let blocks := [(MIC, silence 1024); (LOOPBACK, silence 1024); (MIC, silence 1024)] in
  len (backlog MIC (exec (deliver unit no_level pass_through blocks) recorder_16k_44k))
  = 2048.
Proof.
  cbv zeta.
  pose proof (chunking_is_increment_invariant unit no_level pass_through
                [(MIC, silence 1024); (LOOPBACK, silence 1024); (MIC, silence 1024)]
                recorder_16k_44k MIC 16000 recorder_16k_44k_ready) as H.
  cbv zeta in H. destruct H as (_ & Hb).
  - intros [] sr H; inversion H; reflexivity.
  - repeat constructor; intros sr H; inversion H; vm_compute; discriminate.
  - reflexivity.
  - rewrite Hb. vm_compute. reflexivity.
Defined.

Lemma recording_buffers_follow_the_flag_witness :
  let r := set_is_writing_audio unit true recorder_16k_44k in
  is_writing_audio unit (exec (deliver unit no_level pass_through two_blocks) r) = true.
Proof.
  cbv zeta.
  pose proof (recording_buffers_follow_the_flag unit no_level pass_through two_blocks
                (set_is_writing_audio unit true recorder_16k_44k)) as H.
  cbv zeta in H. destruct H as (Hw & _).
  - intros []; discriminate.
  - rewrite Hw. reflexivity.
Defined.

Lemma silence_warning_is_sticky_witness :
  loopback_silence_warning_shown unit
    (exec (deliver unit no_level pass_through two_blocks) recorder_16k_44k) = true.
Proof.
  apply (silence_warning_is_sticky unit no_level pass_through two_blocks recorder_16k_44k).
  - intros []; discriminate.
  - right. exists (silence 1024). split; [right; left; reflexivity|vm_compute; reflexivity].
Defined.

Lemma level_is_reported_per_block_witness :
  let r := set_level_callback unit (Some []) recorder_16k_44k in
  level_callback unit (exec (deliver unit no_level pass_through two_blocks) r)
  = Some [(MIC, tt); (LOOPBACK, tt)].
Proof.
  cbv zeta.
  rewrite (level_is_reported_per_block unit no_level pass_through two_blocks
             (set_level_callback unit (Some []) recorder_16k_44k)).
  - reflexivity.
  - intros []; discriminate.
Defined.

Lemma recording_session_saves_what_was_delivered_witness :
  fst ((start_audio_file_writing unit "meeting.wav" ;;
        deliver unit no_level pass_through [(MIC, [16384; -16384]); (LOOPBACK, [0])] ;;
        stop_audio_file_writing unit pass_through saves) recorder_16k_44k)
  = Ret (Some "meeting.wav"%string).
Proof.
  pose proof (recording_session_saves_what_was_delivered unit no_level pass_through saves
                "meeting.wav" [(MIC, [16384; -16384]); (LOOPBACK, [0])]
                recorder_16k_44k 16000 44100) as H.
  cbv zeta in H. destruct H as (Hs & _).
  - reflexivity.
  - reflexivity.
  - discriminate.
  - rewrite Hs. reflexivity.
Defined.

(** A session in which the microphone, at 16 kHz, delivered one block
    without a sample: the resampler raises, and the flag and the buffers
    are cleared all the same. *)
Example empty_block_recording_raises :
  let session :=
    start_audio_file_writing unit "meeting.wav" ;;
    deliver unit no_level pass_through [(MIC, [])] ;;
    stop_audio_file_writing unit pass_through saves in
  fst (session recorder_16k_44k) = Raise (Exception "RuntimeError") /\
  is_writing_audio unit (exec session recorder_16k_44k) = false /\
  mic_file_buffer unit (exec session recorder_16k_44k) = [].
Proof.
  vm_compute. repeat split.
Qed.

Lemma microphone_only_recording_witness :
  let r := set_mic_file_buffer unit [[16384; -16384]; [0]]
             (set_mixed_audio_path unit (Some "meeting.wav"%string) recorder_16k_44k) in
  fst (stop_audio_file_writing unit pass_through saves r) = Ret (Some "meeting.wav"%string).
Proof.
  cbv zeta.
  rewrite (microphone_only_recording unit pass_through saves
             (set_mic_file_buffer unit [[16384; -16384]; [0]]
                (set_mixed_audio_path unit (Some "meeting.wav"%string) recorder_16k_44k))
             "meeting.wav" 16000).
  - reflexivity.
  - reflexivity.
  - discriminate.
  - reflexivity.
  - reflexivity.
  - reflexivity.
Defined.

(** A host on which device 0 runs at 48 kHz and every other device at
    16 kHz, and one on which only device 0 can be started. *)
Definition opens_all (d : Z) : outcome Z := if d =? 0 then Ret 48000 else Ret 16000.

Definition starts_only_0 (d : Z) : outcome unit :=
  if d =? 0 then Ret tt else Raise (Exception "PortAudioError").

Lemma start_recording_attaches_resamplers_witness :
  let r' := exec (start_recording unit opens_all starts) (__init__ unit 0 1 [] false) in
  mic_resampler unit r' = Some (48000, 16000) /\ loopback_resampler unit r' = None.
Proof.
  cbv zeta.
  pose proof (start_recording_attaches_resamplers unit opens_all starts
                (__init__ unit 0 1 [] false) 48000 16000) as H.
  cbv zeta in H. destruct H as (_ & _ & _ & _ & _ & Hm & Hl); try reflexivity.
  rewrite Hm, Hl. split; reflexivity.
Defined.

Lemma start_failure_leaves_streams_open_witness :
  let r' := exec (start_recording unit opens_all starts_only_0) (__init__ unit 0 1 [] false) in
  is_running (mic_stream r') = true /\ is_running (loopback_stream r') = false.
Proof.
  cbv zeta.
  pose proof (start_failure_leaves_streams_open unit opens_all starts_only_0
                (__init__ unit 0 1 [] false) 48000 16000 (Exception "PortAudioError")) as H.
  cbv zeta in H. destruct H as (_ & _ & _ & Hl & Hm).
  - reflexivity.
  - reflexivity.
  - right. split; reflexivity.
  - rewrite Hm, Hl. split; reflexivity.
Defined.

Lemma start_recording_makes_ready_witness :
  returns (deliver unit no_level pass_through two_blocks)
    (exec (start_recording unit opens_all starts) (__init__ unit 0 1 [] false)) = true.
Proof.
  pose proof (start_recording_makes_ready unit no_level pass_through opens_all starts
                0 1 [] false two_blocks) as H.
  cbv zeta in H. destruct H as (_ & _ & Hret).
  - reflexivity.
  - intros d rate. unfold opens_all. destruct (d =? 0); intros E; inversion E; lia.
  - exact Hret.
Defined.

End audio_recorder.

(** ** transcriber.py *)

Module transcriber.

Inductive Device : Type := cuda | cpu.

Definition Device_eqb (a b : Device) : bool :=
  match a, b with
  | cuda, cuda | cpu, cpu => true
  | _, _ => false
  end.

(** Keyword arguments of [model.transcribe]. *)
Record TranscribeArgs : Type := mkTranscribeArgs {
  language : option string;
  fp16 : bool;
  logprob_threshold : option Q;
  no_speech_threshold : option Q;
  task : option string
}.

(** The three ways the file calls [model.transcribe]. *)
Definition mic_args : TranscribeArgs :=
  mkTranscribeArgs (Some "en"%string) false (Some (-8 # 10)%Q) (Some (7 # 10)%Q) None.

Definition plain_args (lang : option string) : TranscribeArgs :=
  mkTranscribeArgs lang false None None None.

Definition fallback_args : TranscribeArgs :=
  mkTranscribeArgs (Some "en"%string) false None None (Some "transcribe"%string).

(** [diarization_params] *)
Record DiarizeArgs : Type := mkDiarizeArgs {
  arg_min_speakers : option Z;
  arg_max_speakers : option Z
}.

(** One item of [diarization.itertracks(yield_label=True)]: the segment's
    bounds in seconds, two Python floats, and the speaker label. *)
Record Track : Type := mkTrack {
  start : float;
  end_ : float;
  speaker : string
}.

Definition Transcript : Type := (string * Source * option string)%type.

Inductive Module_ : Type := WhisperModel | DiarizationPipeline.

(** What the engines were asked, on which device, and what they answered. *)
Inductive Event : Type :=
| Transcribed (on : Device) (audio : Audio) (args : TranscribeArgs) (result : outcome string)
| Diarized (on : Device) (audio : Audio) (args : DiarizeArgs) (result : outcome (list Track))
| MovedToCpu (what : Module_) (result : outcome unit).

(** The transcription calls among the recorded events. *)
Definition transcribe_calls (evs : list Event) : list (Audio * TranscribeArgs) :=
  flat_map (fun ev => match ev with
                      | Transcribed _ audio args _ => [(audio, args)]
                      | _ => []
                      end) evs.

(** The diagnostics the consumer prints when it gives something up. *)
Inductive Msg : Type :=
| SilenceSkipped
| NoSpeech (source : Source)
| SegmentTooShort
| SegmentError (e : exn)
| SegmentFallbackFailed (e : exn)
| CudaOutOfMemory (e : exn)
| MoveToCpuFailed (e : exn)
| CpuRetryFailed (e : exn)
| DiarizationError (e : exn)
| TranscriptionError (e : exn).

(** A [queue.Queue]: its items and the count [task_done] decrements. *)
Record Queue : Type := mkQueue {
  items : list (Audio * Source);
  unfinished_tasks : Z
}.

(** The pyannote pipeline object: where it lives and the onset threshold
    of its segmentation. *)
Record Pipeline : Type := mkPipeline {
  pipeline_device : Device;
  onset : Q
}.

(** [int(x)] of a float: the integer part, towards zero, of the number
    the float stands for; [nan] raises [ValueError] and an infinity
    [OverflowError]. *)
Definition int (x : float) : outcome Z :=
  match Prim2SF x with
  | S754_zero _ => Ret 0
  | S754_finite negative m e =>
      let magnitude := if 0 <=? e then Z.pos m * 2 ^ e else Z.pos m / 2 ^ (- e) in
      Ret (if negative then - magnitude else magnitude)
  | S754_infinity _ => Raise (Exception "OverflowError")
  | S754_nan => Raise (Exception "ValueError")
  end.

(** [int(seconds * WHISPER_SAMPLE_RATE)]: the rate becomes the float
    16000.0 and the product is rounded to binary64 before it is cut. *)
Definition frame (seconds : float) : outcome Z := int (seconds * 16000)%float.

(** [WHISPER_SAMPLE_RATE * 0.2], which is 3200.0 in double precision. *)
Definition MIN_SEGMENT_FRAMES : Z := 3200.

(** [0.001] *)
Definition SILENCE_RMS : float := 0x1.0624dd2f1a9fcp-10%float.

(** The code points for which [str.isspace] holds, which are the ones
    [str.strip()] removes: tab to carriage return, the separators U+001C
    to U+001F, space, next line, no-break space, ogham space mark, en quad
    to hair space, line and paragraph separator, narrow no-break space,
    medium mathematical space and ideographic space. *)
Definition whitespace : list N :=
  [0x09; 0x0A; 0x0B; 0x0C; 0x0D; 0x1C; 0x1D; 0x1E; 0x1F; 0x20; 0x85; 0xA0;
   0x1680; 0x2000; 0x2001; 0x2002; 0x2003; 0x2004; 0x2005; 0x2006; 0x2007;
   0x2008; 0x2009; 0x200A; 0x2028; 0x2029; 0x202F; 0x205F; 0x3000]%N.

(** The UTF-8 bytes of a code point. *)
Definition utf8 (c : N) : list ascii :=
  let byte (lead bits : N) := ascii_of_N (lead + bits)%N in
  let tail (shift : N) := byte 0x80%N (N.shiftr c shift mod 64)%N in
  (if c <? 0x80 then [ascii_of_N c]
   else if c <? 0x800 then [byte 0xC0 (N.shiftr c 6); tail 0]
   else if c <? 0x10000 then [byte 0xE0 (N.shiftr c 12); tail 6; tail 0]
   else [byte 0xF0 (N.shiftr c 18); tail 12; tail 6; tail 0])%N.

(** [str.encode('utf-8')] of a sequence of code points. *)
Definition encode (text : list N) : string := string_of_list_ascii (flat_map utf8 text).

(** The byte sequences [strip] looks for: the whitespace, encoded. *)
Definition spaces : list (list ascii) := Eval vm_compute in map utf8 whitespace.

(** What follows a prefix [p] of [l]. *)
Fixpoint after_prefix (p l : list ascii) : option (list ascii) :=
  match p, l with
  | [], _ => Some l
  | a :: p', b :: l' => if Ascii.eqb a b then after_prefix p' l' else None
  | _ :: _, [] => None
  end.

(** What follows the first of [pats] that [l] starts with. *)
Fixpoint after_any (pats : list (list ascii)) (l : list ascii) : option (list ascii) :=
  match pats with
  | [] => None
  | p :: more =>
      match after_prefix p l with
      | Some rest => Some rest
      | None => after_any more l
      end
  end.

(** Takes leading [pats] off [l] as long as there are any. *)
Fixpoint drop_leading (pats : list (list ascii)) (fuel : nat) (l : list ascii) : list ascii :=
  match fuel with
  | O => l
  | S fuel =>
      match after_any pats l with
      | Some rest => drop_leading pats fuel rest
      | None => l
      end
  end.

(** [str.lstrip()] and [str.rstrip()] on the UTF-8 bytes: a lead byte is
    never a continuation byte, so that a text ends with the bytes of a
    code point exactly when that is its last character. *)
Definition lstrip (s : list ascii) : list ascii := drop_leading spaces (length s) s.

Definition rstrip (s : list ascii) : list ascii :=
  rev (drop_leading (map (@rev ascii) spaces) (length s) (rev s)).

Definition strip (s : string) : string :=
  string_of_list_ascii (rstrip (lstrip (list_ascii_of_string s))).

Definition nonempty (s : string) : bool :=
  match s with EmptyString => false | String _ _ => true end.

Section Engines.

(** The state of everything behind the two engines (weights, CUDA
    allocator, ...), and the engines as functions of it. *)
Variable Engine : Type.

(** [model.transcribe(audio, **args)["text"]] with the model on a device. *)
Variable whisper_transcribe :
  Engine -> Device -> Audio -> TranscribeArgs -> outcome string * Engine.

(** [pipeline({"waveform": ..., "sample_rate": 16000}, **args)], as the
    list its [itertracks] yields. *)
Variable pyannote_diarize :
  Engine -> Pipeline -> Audio -> DiarizeArgs -> outcome (list Track) * Engine.

(** [module.to('cpu')] *)
Variable torch_to_cpu : Engine -> Module_ -> outcome unit * Engine.

(** [np.sqrt(np.mean(audio_float ** 2))] *)
Variable rms : Audio -> float.

(** The object, followed by what lies outside it: the engines' state, the
    record of calls made to them, and the console. [model] is the device
    of the whisper model; a text callback is the list of transcripts it
    has received. *)
Record Transcriber : Type := mkTranscriber {
  audio_queue : Queue;
  text_callback : option (list Transcript);
  min_speakers : Z;
  max_speakers : Z;
  model : Device;
  diarization_pipeline : option Pipeline;
  transcription_language : string;
  stop_event : bool;
  recording_enabled : bool;
  engine : Engine;
  events : list Event;
  console : list Msg
}.

Definition set_audio_queue v t := let 'mkTranscriber _ b c d e f g h i j k l := t in mkTranscriber v b c d e f g h i j k l.
Definition set_text_callback v t := let 'mkTranscriber a _ c d e f g h i j k l := t in mkTranscriber a v c d e f g h i j k l.
Definition set_model v t := let 'mkTranscriber a b c d _ f g h i j k l := t in mkTranscriber a b c d v f g h i j k l.
Definition set_diarization_pipeline v t := let 'mkTranscriber a b c d e _ g h i j k l := t in mkTranscriber a b c d e v g h i j k l.
Definition set_stop_event v t := let 'mkTranscriber a b c d e f g _ i j k l := t in mkTranscriber a b c d e f g v i j k l.
Definition set_recording_enabled v t := let 'mkTranscriber a b c d e f g h _ j k l := t in mkTranscriber a b c d e f g h v j k l.
Definition set_engine v t := let 'mkTranscriber a b c d e f g h i _ k l := t in mkTranscriber a b c d e f g h i v k l.
Definition set_events v t := let 'mkTranscriber a b c d e f g h i j _ l := t in mkTranscriber a b c d e f g h i j v l.
Definition set_console v t := let 'mkTranscriber a b c d e f g h i j k _ := t in mkTranscriber a b c d e f g h i j k v.

(** [Transcriber.__init__] with the language read from the settings. *)
Definition __init__ (whisper_model : Device) (pipeline : option Pipeline)
    (queue : Queue) (callback : bool) (lang : string) (e : Engine) : Transcriber :=
  mkTranscriber queue (if callback then Some [] else None) 0 0 whisper_model pipeline
    lang false false e [] [].

(** *** Calls that leave the object *)

Definition print (m : Msg) : M Transcriber unit :=
  modify (fun t => set_console (console t ++ [m]) t).

Definition record (ev : Event) (e : Engine) (t : Transcriber) : Transcriber :=
  set_events (events t ++ [ev]) (set_engine e t).

Definition model_transcribe (audio : Audio) (args : TranscribeArgs) : M Transcriber string :=
  fun t =>
    let (result, e) := whisper_transcribe (engine t) (model t) audio args in
    (result, record (Transcribed (model t) audio args result) e t).

Definition pipeline_call (p : Pipeline) (audio : Audio) (args : DiarizeArgs)
  : M Transcriber (list Track) :=
  fun t =>
    let (result, e) := pyannote_diarize (engine t) p audio args in
    (result, record (Diarized (pipeline_device p) audio args result) e t).

Definition to_cpu (what : Module_) : M Transcriber unit :=
  fun t =>
    let (result, e) := torch_to_cpu (engine t) what in
    (result, record (MovedToCpu what result) e t).

(** [if self.text_callback: self.text_callback(text, source, speaker)] *)
Definition emit (text : string) (source : Source) (speaker : option string)
  : M Transcriber unit :=
  modify (fun t => match text_callback t with
                   | Some received => set_text_callback (Some (received ++ [(text, source, speaker)])) t
                   | None => t
                   end).

(** [self.audio_queue.get(timeout=0.5)] on the items present. *)
Definition queue_get : M Transcriber (Audio * Source) :=
  fun t =>
    match items (audio_queue t) with
    | item :: rest => (Ret item, set_audio_queue (mkQueue rest (unfinished_tasks (audio_queue t))) t)
    | [] => (Raise Empty, t)
    end.

(** [self.audio_queue.task_done()] *)
Definition task_done : M Transcriber unit :=
  fun t =>
    let unfinished := unfinished_tasks (audio_queue t) - 1 in
    if unfinished <? 0 then (Raise (Exception "ValueError"), t)
    else (Ret tt, set_audio_queue (mkQueue (items (audio_queue t)) unfinished) t).

(** [None if self.transcription_language == 'auto' else
    self.transcription_language] *)
Definition lang (t : Transcriber) : option string :=
  if String.eqb (transcription_language t) "auto" then None
  else Some (transcription_language t).

(** *** Methods *)

Definition _transcribe_standard (audio_float : Audio) (source : Source) : M Transcriber unit :=
  let report (result : string) : M Transcriber unit :=
    let text := strip result in
    if nonempty text then emit text source None else print (NoSpeech source) in
  match source with
  | MIC =>
      if (rms audio_float <? SILENCE_RMS)%float then print SilenceSkipped
      else result <- model_transcribe audio_float mic_args ;; report result
  | LOOPBACK =>
      t <- get ;;
      result <- model_transcribe audio_float (plain_args (lang t)) ;;
      report result
  end.

(** The whole chunk as one unlabelled unit: the same four lines in the
    zero-segment branch and in both outer handlers. *)
Definition transcribe_whole_chunk (audio_float : Audio) : M Transcriber unit :=
  t <- get ;;
  result <- model_transcribe audio_float (plain_args (lang t)) ;;
  let text := strip result in
  when (nonempty text) (emit text LOOPBACK None).

(** The body of [for segment, track, speaker in diarization.itertracks]. *)
Definition transcribe_segment (audio_float : Audio) (tr : Track) : M Transcriber unit :=
  start_frame <- lift (frame (start tr)) ;;
  end_frame <- lift (frame (end_ tr)) ;;
  let segment_audio := slice audio_float start_frame end_frame in
  if len segment_audio <? MIN_SEGMENT_FRAMES then print SegmentTooShort
  else
    try_except
      (t <- get ;;
       result <- model_transcribe segment_audio (plain_args (lang t)) ;;
       let text := strip result in
       when (nonempty text) (emit text LOOPBACK (Some (speaker tr))))
      (fun seg_error =>
         print (SegmentError seg_error) ;;
         try_except
           (result <- model_transcribe segment_audio fallback_args ;;
            let text := strip result in
            when (nonempty text) (emit text LOOPBACK (Some (speaker tr))))
           (fun fallback_error => print (SegmentFallbackFailed fallback_error))).

Fixpoint for_each {A} (body : A -> M Transcriber unit) (l : list A) : M Transcriber unit :=
  match l with
  | [] => ret tt
  | x :: rest => body x ;; for_each body rest
  end.

(** [self.diarization_pipeline.segmentation.onset = 0.5] *)
Definition tuned (p : Pipeline) : Pipeline := mkPipeline (pipeline_device p) (1 # 2)%Q.

(** The [diarization_params] dictionary. *)
Definition diarization_params (t : Transcriber) : DiarizeArgs :=
  mkDiarizeArgs (if 0 <? min_speakers t then Some (min_speakers t) else None)
                (if 0 <? max_speakers t then Some (max_speakers t) else None).

(** The [try] block of [diarize_and_transcribe]. *)
Definition diarize_body (audio_float : Audio) : M Transcriber unit :=
  t <- get ;;
  match diarization_pipeline t with
  | None => raise (Exception "AttributeError")
  | Some p =>
      let p := tuned p in
      modify (set_diarization_pipeline (Some p)) ;;
      diarization <- pipeline_call p audio_float (diarization_params t) ;;
      let num_tracks := len diarization in
      if num_tracks =? 0 then transcribe_whole_chunk audio_float
      else for_each (transcribe_segment audio_float) diarization
  end.

(** The [try] block that moves the models in the out-of-memory handler. *)
Definition move_models_to_cpu : M Transcriber unit :=
  t <- get ;;
  when (Device_eqb (model t) cuda) (to_cpu WhisperModel ;; modify (set_model cpu)) ;;
  match diarization_pipeline t with
  | Some p =>
      when (Device_eqb (pipeline_device p) cuda)
        (to_cpu DiarizationPipeline ;;
         modify (set_diarization_pipeline (Some (mkPipeline cpu (onset p)))))
  | None => ret tt
  end.

Definition diarize_and_transcribe (audio_float : Audio) : M Transcriber unit :=
  try_except (diarize_body audio_float)
    (fun e =>
       match e with
       | OutOfMemoryError =>
           print (CudaOutOfMemory e) ;;
           moved <- try_except (move_models_to_cpu ;; ret true)
                      (fun move_e => print (MoveToCpuFailed move_e) ;; ret false) ;;
           if moved : bool then
             try_except (transcribe_whole_chunk audio_float)
               (fun cpu_e => print (CpuRetryFailed cpu_e))
           else ret tt
       | _ =>
           print (DiarizationError e) ;;
           transcribe_whole_chunk audio_float
       end).

(** The choice of method by source in [run]. *)
Definition transcribe_chunk (audio_float : Audio) (source : Source) : M Transcriber unit :=
  t <- get ;;
  match source with
  | LOOPBACK =>
      match diarization_pipeline t with
      | Some _ => diarize_and_transcribe audio_float
      | None => _transcribe_standard audio_float source
      end
  | MIC => _transcribe_standard audio_float source
  end.

(** One turn of the [while] loop of [run]. *)
Definition run_iteration : M Transcriber unit :=
  try_except
    (item <- queue_get ;;
     let (audio_float, source) := item : Audio * Source in
     t <- get ;;
     if negb (recording_enabled t) then task_done
     else transcribe_chunk audio_float source ;; task_done)
    (fun e =>
       match e with
       | Empty => ret tt
       | _ => print (TranscriptionError e) ;; task_done
       end).

(** [run]: the loop, for as many turns as [fuel] allows. *)
Fixpoint run (fuel : nat) : M Transcriber unit :=
  match fuel with
  | O => ret tt
  | S fuel =>
      t <- get ;;
      if stop_event t then ret tt else run_iteration ;; run fuel
  end.

Definition stop : M Transcriber unit := modify (set_stop_event true).

(** *** The microphone path *)

Lemma model_transcribe_run (audio : Audio) (args : TranscribeArgs) (t : Transcriber) :
  model_transcribe audio args t =
    (fst (whisper_transcribe (engine t) (model t) audio args),
     record (Transcribed (model t) audio args
               (fst (whisper_transcribe (engine t) (model t) audio args)))
       (snd (whisper_transcribe (engine t) (model t) audio args)) t).
Proof.
  unfold model_transcribe. now destruct (whisper_transcribe _ _ _ _).
Qed.

(** A MIC chunk that is not below the threshold costs one engine call. *)
Lemma loud_mic_chunk_is_transcribed (audio_float : Audio) (t : Transcriber) :
  (rms audio_float <? SILENCE_RMS)%float = false ->
  events (exec (_transcribe_standard audio_float MIC) t) =
    events t ++
      [Transcribed (model t) audio_float mic_args
         (fst (whisper_transcribe (engine t) (model t) audio_float mic_args))].
Proof.
  intros Hloud. unfold exec, _transcribe_standard. rewrite Hloud.
  unfold bind. rewrite model_transcribe_run.
  destruct (whisper_transcribe (engine t) (model t) audio_float mic_args) as [[text|e] e1];
    cbn [fst snd]; [|now destruct t].
  destruct (nonempty (strip text)); destruct t as [? [?|] ? ? ? ? ? ? ? ? ? ?]; reflexivity.
Qed.

(** C7. A MIC chunk whose RMS is below the threshold makes
    [_transcribe_standard] return without calling the speech engine and
    without handing anything to the text callback; any other MIC chunk is
    passed to the engine, once, whole, with the MIC arguments. *)
Theorem mic_silence_gate (audio_float : Audio) (t : Transcriber) :
  let t' := exec (_transcribe_standard audio_float MIC) t in
  let answer := fst (whisper_transcribe (engine t) (model t) audio_float mic_args) in
  if (rms audio_float <? SILENCE_RMS)%float
  then returns (_transcribe_standard audio_float MIC) t = true /\
       events t' = events t /\ engine t' = engine t /\
       text_callback t' = text_callback t
  else events t' = events t ++ [Transcribed (model t) audio_float mic_args answer].
Proof.
  cbv zeta.
  destruct (rms audio_float <? SILENCE_RMS)%float eqn:Hgate.
  - unfold exec, returns, _transcribe_standard. rewrite Hgate. now destruct t.
  - now apply loud_mic_chunk_is_transcribed.
Qed.

(** C9. A MIC chunk that passes the gate is transcribed with
    [language="en"] whatever [transcription_language] holds; on the
    loopback paths of [_transcribe_standard] and of the whole-chunk
    transcription the language is the configured one, with ['auto']
    turned into [None]. *)
Theorem mic_language_is_english (audio_float : Audio) (t : Transcriber) :
  (rms audio_float <? SILENCE_RMS)%float = false ->
  (exists args answer,
      events (exec (_transcribe_standard audio_float MIC) t) =
        events t ++ [Transcribed (model t) audio_float args answer] /\
      language args = Some "en"%string) /\
  (exists answer,
      events (exec (_transcribe_standard audio_float LOOPBACK) t) =
        events t ++ [Transcribed (model t) audio_float (plain_args (lang t)) answer]) /\
  (exists answer,
      events (exec (transcribe_whole_chunk audio_float) t) =
        events t ++ [Transcribed (model t) audio_float (plain_args (lang t)) answer]) /\
  language (plain_args (lang t)) =
    (if String.eqb (transcription_language t) "auto" then None
     else Some (transcription_language t)).
Proof.
  intros Hloud. repeat split.
  - exists mic_args, (fst (whisper_transcribe (engine t) (model t) audio_float mic_args)).
    split; [|reflexivity].
    now apply loud_mic_chunk_is_transcribed.
  - exists (fst (whisper_transcribe (engine t) (model t) audio_float (plain_args (lang t)))).
    unfold exec, _transcribe_standard, bind, get. rewrite model_transcribe_run.
    destruct (whisper_transcribe (engine t) (model t) audio_float _) as [[text|e] e1];
      cbn [fst snd]; [|now destruct t].
    destruct (nonempty (strip text)); destruct t as [? [?|] ? ? ? ? ? ? ? ? ? ?]; reflexivity.
  - exists (fst (whisper_transcribe (engine t) (model t) audio_float (plain_args (lang t)))).
    unfold exec, transcribe_whole_chunk, bind, get. rewrite model_transcribe_run.
    destruct (whisper_transcribe (engine t) (model t) audio_float _) as [[text|e] e1];
      cbn [fst snd]; [|now destruct t].
    destruct (nonempty (strip text)); destruct t as [? [?|] ? ? ? ? ? ? ? ? ? ?]; reflexivity.
Qed.

(** *** What transcription leaves alone *)

(** The queue and the settings are not touched by the transcription
    methods. *)
Definition same_setup (t t' : Transcriber) : Prop :=
  audio_queue t' = audio_queue t /\
  transcription_language t' = transcription_language t /\
  recording_enabled t' = recording_enabled t /\
  stop_event t' = stop_event t.

Lemma same_setup_refl (t : Transcriber) : same_setup t t.
Proof. repeat split. Qed.

Lemma same_setup_trans (a b c : Transcriber) :
  same_setup a b -> same_setup b c -> same_setup a c.
Proof.
  unfold same_setup. intros (? & ? & ? & ?) (? & ? & ? & ?).
  repeat split; congruence.
Qed.

(** Once on the CPU, always on the CPU: neither device goes back, and
    from a state with both on the CPU every further engine call is made
    there. *)
Definition on_cpu (ev : Event) : Prop :=
  match ev with
  | Transcribed d _ _ _ | Diarized d _ _ _ => d = cpu
  | MovedToCpu _ _ => False
  end.

Definition pipeline_on_cpu (t : Transcriber) : Prop :=
  match diarization_pipeline t with
  | Some p => pipeline_device p = cpu
  | None => True
  end.

Definition all_on_cpu (t : Transcriber) : Prop :=
  model t = cpu /\ pipeline_on_cpu t.

Definition stays_on_cpu (t t' : Transcriber) : Prop :=
  (exists new, events t' = events t ++ new /\ (all_on_cpu t -> Forall on_cpu new)) /\
  (model t = cpu -> model t' = cpu) /\
  (pipeline_on_cpu t -> pipeline_on_cpu t').

Lemma stays_on_cpu_refl (t : Transcriber) : stays_on_cpu t t.
Proof.
  split; [|now split]. exists []. rewrite app_nil_r. split; [reflexivity|constructor].
Qed.

Lemma stays_on_cpu_trans (a b c : Transcriber) :
  stays_on_cpu a b -> stays_on_cpu b c -> stays_on_cpu a c.
Proof.
  intros ((n1 & E1 & F1) & M1 & P1) ((n2 & E2 & F2) & M2 & P2).
  split; [|split; auto].
  exists (n1 ++ n2). split; [rewrite E2, E1; now rewrite app_assoc|].
  intros [Hm Hp]. apply Forall_app. split; [now apply F1|].
  apply F2. split; auto.
Qed.

(** The calls that leave the object, under both relations. *)
Ltac outside_call t :=
  destruct t as [? [?|] ? ? [|] [[[|] ?]|] ? ? ? ? ? ?];
  unfold leads, same_setup, stays_on_cpu, all_on_cpu, pipeline_on_cpu,
    print, emit, model_transcribe, pipeline_call, to_cpu, record, modify;
  cbn;
  repeat match goal with
         | |- context [let (_, _) := ?x in _] => destruct x
         end;
  cbn;
  repeat match goal with
         | |- _ /\ _ => split
         | |- exists new, ?l ++ ?x = ?l ++ new /\ _ => exists x
         | |- exists new, ?l = ?l ++ new /\ _ => exists []; rewrite app_nil_r
         | |- Forall _ [] => constructor
         | |- Forall _ [_] => constructor
         | |- _ -> _ => intros
         | H : _ /\ _ |- _ => destruct H
         | |- _ => reflexivity || assumption || discriminate || (cbn; congruence)
         end.

Lemma print_same_setup (m : Msg) (t : Transcriber) : leads same_setup (print m) t.
Proof. outside_call t. Qed.

Lemma emit_same_setup text source sp (t : Transcriber) :
  leads same_setup (emit text source sp) t.
Proof. outside_call t. Qed.

Lemma model_transcribe_same_setup audio args (t : Transcriber) :
  leads same_setup (model_transcribe audio args) t.
Proof. outside_call t. Qed.

Lemma pipeline_call_same_setup p audio args (t : Transcriber) :
  leads same_setup (pipeline_call p audio args) t.
Proof. outside_call t. Qed.

Lemma to_cpu_same_setup what (t : Transcriber) : leads same_setup (to_cpu what) t.
Proof. outside_call t. Qed.

Lemma print_stays_on_cpu (m : Msg) (t : Transcriber) : leads stays_on_cpu (print m) t.
Proof. outside_call t. Qed.

Lemma emit_stays_on_cpu text source sp (t : Transcriber) :
  leads stays_on_cpu (emit text source sp) t.
Proof. outside_call t. Qed.

Lemma model_transcribe_stays_on_cpu audio args (t : Transcriber) :
  leads stays_on_cpu (model_transcribe audio args) t.
Proof. outside_call t. Qed.

Lemma pipeline_call_stays_on_cpu p audio args (t : Transcriber) :
  (pipeline_on_cpu t -> pipeline_device p = cpu) ->
  leads stays_on_cpu (pipeline_call p audio args) t.
Proof. intros H. outside_call t; cbn in *; auto. Qed.

Lemma to_cpu_stays_on_cpu what (t : Transcriber) :
  ~ all_on_cpu t -> leads stays_on_cpu (to_cpu what) t.
Proof.
  intros H. outside_call t; cbn in *; try tauto;
    exfalso; apply H; unfold all_on_cpu, pipeline_on_cpu; cbn; auto.
Qed.

(** Walks through a method along a relation [R], leaving the calls the
    hint database [db] does not settle. *)
Ltac walk R_refl R_trans db :=
  repeat match goal with
         | |- leads _ (ret _) _ => apply (leads_ret _ R_refl)
         | |- leads _ (raise _) _ => apply (leads_raise _ R_refl)
         | |- leads _ (lift _) _ => apply (leads_lift _ R_refl)
         | |- leads _ (bind get _) _ =>
             let H := fresh in
             apply (leads_bind _ R_trans);
             [apply (leads_get _ R_refl)
             |intros ? ? H; apply get_inv in H; destruct H; subst]
         | |- leads _ (bind _ _) _ => apply (leads_bind _ R_trans); [|intros ? ? ?]
         | |- leads _ (try_except _ _) _ =>
             apply (leads_try_except _ R_trans); [|intros ? ? ?]
         | |- leads _ (when _ _) _ => apply (leads_when _ R_refl); intros ?
         | |- leads _ (if ?b then _ else _) _ => destruct b eqn:?
         | |- leads _ (match ?x with _ => _ end) _ => destruct x eqn:?
         | |- leads _ _ _ => solve [auto with db]
         end.

Create HintDb setup_steps.
Create HintDb cpu_steps.

Hint Resolve print_same_setup emit_same_setup model_transcribe_same_setup
  pipeline_call_same_setup to_cpu_same_setup : setup_steps.
Hint Resolve print_stays_on_cpu emit_stays_on_cpu model_transcribe_stays_on_cpu : cpu_steps.

Lemma _transcribe_standard_same_setup audio source (t : Transcriber) :
  leads same_setup (_transcribe_standard audio source) t.
Proof.
  unfold _transcribe_standard. walk same_setup_refl same_setup_trans setup_steps.
Qed.

Lemma transcribe_whole_chunk_same_setup audio (t : Transcriber) :
  leads same_setup (transcribe_whole_chunk audio) t.
Proof.
  unfold transcribe_whole_chunk. walk same_setup_refl same_setup_trans setup_steps.
Qed.

Lemma transcribe_segment_same_setup audio tr (t : Transcriber) :
  leads same_setup (transcribe_segment audio tr) t.
Proof.
  unfold transcribe_segment. cbv zeta. walk same_setup_refl same_setup_trans setup_steps.
Qed.

Hint Resolve _transcribe_standard_same_setup transcribe_whole_chunk_same_setup
  transcribe_segment_same_setup : setup_steps.

Lemma _transcribe_standard_stays_on_cpu audio source (t : Transcriber) :
  leads stays_on_cpu (_transcribe_standard audio source) t.
Proof.
  unfold _transcribe_standard. walk stays_on_cpu_refl stays_on_cpu_trans cpu_steps.
Qed.

Lemma transcribe_whole_chunk_stays_on_cpu audio (t : Transcriber) :
  leads stays_on_cpu (transcribe_whole_chunk audio) t.
Proof.
  unfold transcribe_whole_chunk. walk stays_on_cpu_refl stays_on_cpu_trans cpu_steps.
Qed.

Lemma transcribe_segment_stays_on_cpu audio tr (t : Transcriber) :
  leads stays_on_cpu (transcribe_segment audio tr) t.
Proof.
  unfold transcribe_segment. cbv zeta. walk stays_on_cpu_refl stays_on_cpu_trans cpu_steps.
Qed.

Hint Resolve _transcribe_standard_stays_on_cpu transcribe_whole_chunk_stays_on_cpu
  transcribe_segment_stays_on_cpu : cpu_steps.

Lemma for_each_leads (R : Transcriber -> Transcriber -> Prop)
    (R_refl : forall t, R t t) (R_trans : forall a b c, R a b -> R b c -> R a c)
    {A} (body : A -> M Transcriber unit) (l : list A) :
  (forall x t, leads R (body x) t) -> forall t, leads R (for_each body l) t.
Proof.
  intros Hbody. induction l as [|x rest IH]; intros t; cbn [for_each].
  - apply (leads_ret _ R_refl).
  - apply (leads_bind _ R_trans); [apply Hbody|]. intros _ s1 _. apply IH.
Qed.

Lemma set_pipeline_same_setup v (t : Transcriber) :
  leads same_setup (modify (set_diarization_pipeline v)) t.
Proof. now destruct t. Qed.

Lemma set_model_same_setup v (t : Transcriber) :
  leads same_setup (modify (set_model v)) t.
Proof. now destruct t. Qed.

Hint Resolve set_pipeline_same_setup set_model_same_setup : setup_steps.

Lemma diarize_body_same_setup audio (t : Transcriber) :
  leads same_setup (diarize_body audio) t.
Proof.
  unfold diarize_body. cbv zeta. walk same_setup_refl same_setup_trans setup_steps.
  apply (for_each_leads _ same_setup_refl same_setup_trans). auto with setup_steps.
Qed.

Lemma move_models_to_cpu_same_setup (t : Transcriber) :
  leads same_setup move_models_to_cpu t.
Proof.
  unfold move_models_to_cpu. walk same_setup_refl same_setup_trans setup_steps.
Qed.

Hint Resolve diarize_body_same_setup move_models_to_cpu_same_setup : setup_steps.

Lemma diarize_and_transcribe_same_setup audio (t : Transcriber) :
  leads same_setup (diarize_and_transcribe audio) t.
Proof.
  unfold diarize_and_transcribe. walk same_setup_refl same_setup_trans setup_steps.
Qed.

Lemma diarize_body_stays_on_cpu audio (t : Transcriber) :
  leads stays_on_cpu (diarize_body audio) t.
Proof.
  unfold diarize_body. cbv zeta. walk stays_on_cpu_refl stays_on_cpu_trans cpu_steps.
  - destruct t as [? ? ? ? ? [[d o]|] ? ? ? ? ? ?]; [|discriminate].
    match goal with H : _ = Some _ |- _ => cbn in H; inversion H; subst end.
    unfold leads, stays_on_cpu, all_on_cpu, pipeline_on_cpu. cbn.
    split; [|now split]. exists []. rewrite app_nil_r. split; [reflexivity|constructor].
  - match goal with H : modify _ _ = _ |- _ => unfold modify in H; inversion H; subst end.
    apply pipeline_call_stays_on_cpu.
    destruct t as [? ? ? ? ? [[d o]|] ? ? ? ? ? ?]; [|discriminate].
    match goal with H : _ = Some _ |- _ => cbn in H; inversion H; subst end.
    unfold pipeline_on_cpu. cbn. auto.
  - apply (for_each_leads _ stays_on_cpu_refl stays_on_cpu_trans). auto with cpu_steps.
Qed.

Lemma move_models_to_cpu_stays_on_cpu (t : Transcriber) :
  leads stays_on_cpu move_models_to_cpu t.
Proof.
  destruct t as [? ? ? ? [|] [[[|] ?]|] ? ? ? e ? ?];
    unfold leads, move_models_to_cpu, bind, get, when, to_cpu, modify, ret, record;
    cbn;
    repeat match goal with
           | |- context [torch_to_cpu ?e ?w] => destruct (torch_to_cpu e w) as [[[]|?] ?]; cbn
           end;
    unfold stays_on_cpu, all_on_cpu, pipeline_on_cpu; cbn;
    (split; [eexists; split; [rewrite <- ?app_assoc; reflexivity || (symmetry; apply app_nil_r)|]|]);
    try (intros [? ?]; discriminate); try (split; intros; discriminate || reflexivity || assumption);
    try (intros; constructor).
Qed.

Hint Resolve diarize_body_stays_on_cpu move_models_to_cpu_stays_on_cpu : cpu_steps.

Lemma diarize_and_transcribe_stays_on_cpu audio (t : Transcriber) :
  leads stays_on_cpu (diarize_and_transcribe audio) t.
Proof.
  unfold diarize_and_transcribe. walk stays_on_cpu_refl stays_on_cpu_trans cpu_steps.
Qed.

(** *** The loop *)

Hint Resolve diarize_and_transcribe_same_setup : setup_steps.
Hint Resolve diarize_and_transcribe_stays_on_cpu : cpu_steps.

Lemma transcribe_chunk_same_setup audio source (t : Transcriber) :
  leads same_setup (transcribe_chunk audio source) t.
Proof.
  unfold transcribe_chunk. walk same_setup_refl same_setup_trans setup_steps.
Qed.

Lemma transcribe_chunk_stays_on_cpu audio source (t : Transcriber) :
  leads stays_on_cpu (transcribe_chunk audio source) t.
Proof.
  unfold transcribe_chunk. walk stays_on_cpu_refl stays_on_cpu_trans cpu_steps.
Qed.

Lemma stays_on_cpu_same (t t' : Transcriber) :
  events t' = events t -> model t' = model t ->
  diarization_pipeline t' = diarization_pipeline t ->
  stays_on_cpu t t'.
Proof.
  intros He Hm Hp. unfold stays_on_cpu, pipeline_on_cpu. rewrite He, Hm, Hp.
  split; [|now split]. exists []. rewrite app_nil_r. split; [reflexivity|constructor].
Qed.

Lemma queue_get_stays_on_cpu (t : Transcriber) : leads stays_on_cpu queue_get t.
Proof.
  unfold leads, queue_get. destruct (items (audio_queue t)); cbn;
    [apply stays_on_cpu_refl|].
  destruct t. now apply stays_on_cpu_same.
Qed.

Lemma task_done_stays_on_cpu (t : Transcriber) : leads stays_on_cpu task_done t.
Proof.
  unfold leads, task_done. destruct (_ <? 0); cbn; [apply stays_on_cpu_refl|].
  destruct t. now apply stays_on_cpu_same.
Qed.

Hint Resolve transcribe_chunk_stays_on_cpu queue_get_stays_on_cpu
  task_done_stays_on_cpu : cpu_steps.

Lemma run_iteration_stays_on_cpu (t : Transcriber) : leads stays_on_cpu run_iteration t.
Proof.
  unfold run_iteration. walk stays_on_cpu_refl stays_on_cpu_trans cpu_steps.
Qed.

Lemma run_stays_on_cpu (fuel : nat) (t : Transcriber) : leads stays_on_cpu (run fuel) t.
Proof.
  revert t. induction fuel as [|fuel IH]; intros t; cbn [run].
  - apply stays_on_cpu_refl.
  - walk stays_on_cpu_refl stays_on_cpu_trans cpu_steps;
      auto using run_iteration_stays_on_cpu.
Qed.

(** The queue has not been told of more finished tasks than it handed
    out: [task_done] has an item to count off for each item still queued. *)
Definition queue_ok (t : Transcriber) : Prop :=
  len (items (audio_queue t)) <= unfinished_tasks (audio_queue t).

Lemma task_done_counts_off (t : Transcriber) :
  1 <= unfinished_tasks (audio_queue t) ->
  task_done t =
    (Ret tt, set_audio_queue (mkQueue (items (audio_queue t))
                                (unfinished_tasks (audio_queue t) - 1)) t).
Proof.
  intros H. unfold task_done.
  destruct (Z.ltb_spec (unfinished_tasks (audio_queue t) - 1) 0); [lia|reflexivity].
Qed.

(** No turn of the loop raises: whatever the engines do with a chunk, the
    loop goes on to the next one. *)
Lemma run_iteration_returns (t : Transcriber) :
  queue_ok t ->
  returns run_iteration t = true /\ queue_ok (exec run_iteration t).
Proof.
  unfold queue_ok, returns, exec, run_iteration, try_except, bind, queue_get.
  intros Hq.
  destruct (items (audio_queue t)) as [|[audio source] rest] eqn:Hitems.
  { cbn. rewrite Hitems. auto. }
  unfold len in Hq. cbn [length] in Hq.
  set (t0 := set_audio_queue _ t).
  assert (items (audio_queue t0) = rest /\
          unfinished_tasks (audio_queue t0) = unfinished_tasks (audio_queue t))
    as [Hi Hu] by (now destruct t).
  unfold get. cbn beta iota. destruct (recording_enabled t0); cbn [negb].
  - pose proof (transcribe_chunk_same_setup audio source t0) as (Hsame & _).
    destruct (transcribe_chunk audio source t0) as [[[]|e] t1]; cbn [snd] in Hsame.
    + rewrite task_done_counts_off by (rewrite Hsame; lia).
      cbn. destruct t1. cbn in *. rewrite Hsame, Hi. unfold len. split; [reflexivity|lia].
    + assert (1 <= unfinished_tasks (audio_queue (exec (print (TranscriptionError e)) t1)))
        as Hone by (destruct t1; cbn in *; rewrite Hsame; lia).
      unfold exec in Hone.
      destruct e; cbn beta iota;
        try (unfold bind; unfold print, modify in *; cbn [fst snd] in *;
             rewrite task_done_counts_off by exact Hone);
        destruct t1; cbn in *; rewrite Hsame, Hi; unfold len; split; auto; lia.
  - rewrite task_done_counts_off by lia. cbn. destruct t0. cbn in *.
    subst. unfold len. split; [reflexivity|lia].
Qed.

(** *** Speaker segments *)

(** A segment whose two bounds have frame numbers: neither product with
    the frame rate is [nan] or infinite. *)
Definition has_frames (tr : Track) : bool :=
  match int (start tr * 16000), int (end_ tr * 16000) with
  | Ret _, Ret _ => true
  | _, _ => false
  end.

(** [audio_float[int(segment.start * 16000):int(segment.end * 16000)]],
    with the products in double precision, or what [int] raises. *)
Definition segment_audio (audio_float : Audio) (tr : Track) : outcome Audio :=
  match int (start tr * 16000) with
  | Ret start_frame =>
      match int (end_ tr * 16000) with
      | Ret end_frame => Ret (slice audio_float start_frame end_frame)
      | Raise e => Raise e
      end
  | Raise e => Raise e
  end.

(** What the text callback is handed for a transcribed segment. *)
Definition heard (answer : outcome string) (sp : option string) : list Transcript :=
  match answer with
  | Ret result => if nonempty (strip result) then [(strip result, LOOPBACK, sp)] else []
  | Raise _ => []
  end.

Definition received (said : list Transcript) (t : Transcriber) : option (list Transcript) :=
  option_map (fun before => before ++ said) (text_callback t).

(** The engine calls one segment gets, and what is heard of it: none when
    it is too short; one when the first call returns; the first and one
    more with the fallback arguments when the first call raises. *)
Inductive attempts (on : Device) (l : option string) (audio_float : Audio) (tr : Track)
  : list Event -> list Transcript -> Prop :=
| too_short (cut : Audio) :
    segment_audio audio_float tr = Ret cut ->
    len cut < MIN_SEGMENT_FRAMES ->
    attempts on l audio_float tr [] []
| first_call_returns (cut : Audio) (text : string) :
    segment_audio audio_float tr = Ret cut ->
    MIN_SEGMENT_FRAMES <= len cut ->
    attempts on l audio_float tr
      [Transcribed on cut (plain_args l) (Ret text)]
      (heard (Ret text) (Some (speaker tr)))
| first_call_raises (cut : Audio) (e : exn) (answer : outcome string) :
    segment_audio audio_float tr = Ret cut ->
    MIN_SEGMENT_FRAMES <= len cut ->
    attempts on l audio_float tr
      [Transcribed on cut (plain_args l) (Raise e);
       Transcribed on cut fallback_args answer]
      (heard answer (Some (speaker tr))).

Lemma emit_when_nonempty (result : string) (sp : option string) (t : Transcriber) :
  when (nonempty (strip result)) (emit (strip result) LOOPBACK sp) t =
    (Ret tt, set_text_callback (received (heard (Ret result) sp) t) t).
Proof.
  unfold when, emit, modify, ret, received, heard.
  destruct (nonempty (strip result)), t as [? [?|] ? ? ? ? ? ? ? ? ? ?]; cbn;
    rewrite ?app_nil_r; reflexivity.
Qed.

(** A segment with frame numbers is cut, and the rest of the loop body
    works on the cut. *)
Lemma has_frames_cut (audio_float : Audio) (tr : Track) :
  has_frames tr = true ->
  exists start_frame end_frame,
    frame (start tr) = Ret start_frame /\ frame (end_ tr) = Ret end_frame /\
    segment_audio audio_float tr = Ret (slice audio_float start_frame end_frame).
Proof.
  unfold has_frames, segment_audio. fold (frame (start tr)) (frame (end_ tr)).
  destruct (frame (start tr)) as [a|e]; [|discriminate].
  destruct (frame (end_ tr)) as [b|e]; [|discriminate].
  intros _. now exists a, b.
Qed.

(** A segment without them makes the loop body raise before anything is
    asked of the engine. *)
Lemma transcribe_segment_without_frames (audio_float : Audio) (tr : Track) (t : Transcriber) :
  has_frames tr = false ->
  exists e, segment_audio audio_float tr = Raise e /\
            transcribe_segment audio_float tr t = (Raise e, t).
Proof.
  unfold has_frames, segment_audio, transcribe_segment, bind, lift.
  fold (frame (start tr)) (frame (end_ tr)).
  destruct (frame (start tr)) as [a|e]; [|intros _; now exists e].
  destruct (frame (end_ tr)) as [b|e]; [discriminate|intros _; now exists e].
Qed.

(** The loop body on a segment with frame numbers never raises, and
    leaves the model and the language as they were. *)
Lemma transcribe_segment_run (audio_float : Audio) (tr : Track) (t : Transcriber) :
  has_frames tr = true ->
  exists evs said t',
    attempts (model t) (lang t) audio_float tr evs said /\
    transcribe_segment audio_float tr t = (Ret tt, t') /\
    events t' = events t ++ evs /\
    text_callback t' = received said t /\
    model t' = model t /\ lang t' = lang t.
Proof.
  intros Hframes.
  destruct (has_frames_cut audio_float tr Hframes) as (a & b & Ha & Hb & Hcut).
  unfold transcribe_segment. unfold bind at 1. unfold lift at 1. rewrite Ha.
  unfold bind at 1. unfold lift at 1. rewrite Hb. cbv zeta.
  set (cut := slice audio_float a b) in *.
  destruct (Z.ltb_spec (len cut) MIN_SEGMENT_FRAMES) as [Hs|Hl].
  - exists [], []. eexists. split; [now apply (too_short _ _ _ _ cut)|].
    split; [reflexivity|].
    destruct t as [? [?|] ? ? ? ? ? ? ? ? ? ?]; cbn; rewrite !app_nil_r; auto.
  - unfold try_except at 1. unfold bind at 1 2. unfold get.
    rewrite model_transcribe_run.
    destruct (whisper_transcribe (engine t) (model t) cut
                (plain_args (lang t))) as [[text|e] e1]; cbn [fst snd].
    + exists [Transcribed (model t) cut (plain_args (lang t)) (Ret text)],
        (heard (Ret text) (Some (speaker tr))).
      eexists. split; [now apply (first_call_returns _ _ _ _ cut)|].
      rewrite emit_when_nonempty.
      split; [reflexivity|].
      destruct t as [? [?|] ? ? ? ? ? ? ? ? ? ?]; cbn; auto.
    + unfold bind at 1. unfold print at 1. unfold modify. unfold try_except, bind.
      rewrite model_transcribe_run.
      set (t1 := set_console _ _).
      assert (engine t1 = e1 /\ model t1 = model t) as [He Hm] by (now destruct t).
      rewrite He, Hm.
      destruct (whisper_transcribe e1 (model t) cut fallback_args)
        as [[text|e'] e2]; cbn [fst snd].
      * exists [Transcribed (model t) cut (plain_args (lang t)) (Raise e);
                Transcribed (model t) cut fallback_args (Ret text)],
          (heard (Ret text) (Some (speaker tr))).
        eexists. split; [now apply (first_call_raises _ _ _ _ cut)|].
        rewrite emit_when_nonempty.
        split; [reflexivity|].
        subst t1. destruct t as [? [?|] ? ? ? ? ? ? ? ? ? ?]; cbn;
          rewrite <- ?app_assoc; auto.
      * exists [Transcribed (model t) cut (plain_args (lang t)) (Raise e);
                Transcribed (model t) cut fallback_args (Raise e')],
          [].
        eexists. split; [now apply (first_call_raises _ _ _ _ cut e (Raise e'))|].
        split; [reflexivity|].
        subst t1. destruct t as [? [?|] ? ? ? ? ? ? ? ? ? ?]; cbn;
          rewrite <- ?app_assoc, ?app_nil_r; auto.
Qed.

(** Every segment gets its turn, in order, whatever happened to the ones
    before it. *)
Lemma for_each_segment_run (audio_float : Audio) (tracks : list Track) (t : Transcriber) :
  Forall (fun tr => has_frames tr = true) tracks ->
  exists (runs : list (list Event * list Transcript)) t',
    Forall2 (fun tr run => attempts (model t) (lang t) audio_float tr (fst run) (snd run))
      tracks runs /\
    for_each (transcribe_segment audio_float) tracks t = (Ret tt, t') /\
    events t' = events t ++ concat (map fst runs) /\
    text_callback t' = received (concat (map snd runs)) t.
Proof.
  revert t. induction tracks as [|tr rest IH]; intros t Hframes.
  - exists [], t. split; [constructor|]. cbn. rewrite app_nil_r. split; [reflexivity|].
    split; [reflexivity|]. unfold received. destruct (text_callback t); cbn;
      rewrite ?app_nil_r; reflexivity.
  - inversion Hframes as [|? ? Htr Hrest]; subst.
    destruct (transcribe_segment_run audio_float tr t Htr)
      as (evs & said & t1 & Hatt & Hret & Hev & Hcb & Hm & Hl).
    destruct (IH t1 Hrest) as (runs & t' & Hall & Hret' & Hev' & Hcb').
    rewrite Hm, Hl in Hall.
    exists ((evs, said) :: runs), t'. split; [constructor; assumption|].
    cbn [for_each]. unfold bind. rewrite Hret. split; [exact Hret'|].
    cbn [map concat fst snd]. rewrite Hev', Hev, Hcb', app_assoc.
    split; [reflexivity|]. unfold received. rewrite Hcb. unfold received.
    destruct (text_callback t); cbn; rewrite ?app_assoc; reflexivity.
Qed.

(** *** Diarized chunks *)

(** The state once the diarizer has answered. *)
Definition diarized (p : Pipeline) (audio_float : Audio)
    (result : outcome (list Track)) (e : Engine) (t : Transcriber) : Transcriber :=
  record (Diarized (pipeline_device p) audio_float (diarization_params t) result) e
    (set_diarization_pipeline (Some (tuned p)) t).

Lemma diarize_body_run (audio_float : Audio) (t : Transcriber) (p : Pipeline)
    (result : outcome (list Track)) (e1 : Engine) :
  diarization_pipeline t = Some p ->
  pyannote_diarize (engine t) (tuned p) audio_float (diarization_params t) = (result, e1) ->
  diarize_body audio_float t =
    match result with
    | Ret tracks =>
        if len tracks =? 0
        then transcribe_whole_chunk audio_float (diarized p audio_float result e1 t)
        else for_each (transcribe_segment audio_float) tracks
               (diarized p audio_float result e1 t)
    | Raise e => (Raise e, diarized p audio_float result e1 t)
    end.
Proof.
  intros Hp Hd. unfold diarize_body, bind, get. rewrite Hp. cbv zeta.
  unfold modify at 1. unfold pipeline_call.
  assert (engine (set_diarization_pipeline (Some (tuned p)) t) = engine t)
    as -> by (now destruct t).
  rewrite Hd. unfold diarized. destruct result as [tracks|e]; [|reflexivity].
  cbn [tuned pipeline_device]. destruct (len tracks =? 0); reflexivity.
Qed.

Lemma transcribe_whole_chunk_run (audio_float : Audio) (t : Transcriber) :
  let answer := fst (whisper_transcribe (engine t) (model t) audio_float (plain_args (lang t))) in
  let e1 := snd (whisper_transcribe (engine t) (model t) audio_float (plain_args (lang t))) in
  let t1 := record (Transcribed (model t) audio_float (plain_args (lang t)) answer) e1 t in
  transcribe_whole_chunk audio_float t =
    (match answer with Ret _ => Ret tt | Raise e => Raise e end,
     match answer with
     | Ret _ => set_text_callback (received (heard answer None) t1) t1
     | Raise _ => t1
     end).
Proof.
  cbv zeta. unfold transcribe_whole_chunk, bind, get. rewrite model_transcribe_run.
  destruct (whisper_transcribe (engine t) (model t) audio_float (plain_args (lang t)))
    as [[text|e] e1]; cbn [fst snd]; [|reflexivity].
  now rewrite emit_when_nonempty.
Qed.

Lemma diarized_keeps (p : Pipeline) audio_float result e1 (t : Transcriber) :
  let t1 := diarized p audio_float result e1 t in
  events t1 = events t ++ [Diarized (pipeline_device p) audio_float (diarization_params t) result] /\
  model t1 = model t /\ lang t1 = lang t /\ engine t1 = e1 /\
  text_callback t1 = text_callback t /\ console t1 = console t.
Proof. destruct t. cbn. repeat split. Qed.

(** C5. In a chunk for which the diarizer returns segments, each with
    bounds that have frame numbers, every segment is handled on its own
    and in order: it is cut out of the chunk at the frames its bounds
    give in double precision; a cut of at least 3200 frames gets one
    transcription call; if that call raises it gets exactly one more, with
    the fallback arguments, and whether or not that one raises the loop
    goes on to the next segment. The method returns, and the text callback
    receives what was heard of each segment, tagged with its speaker. *)
Theorem segment_failure_is_isolated (audio_float : Audio) (t : Transcriber)
    (p : Pipeline) (tracks : list Track) (e1 : Engine) :
  diarization_pipeline t = Some p ->
  pyannote_diarize (engine t) (tuned p) audio_float (diarization_params t) =
    (Ret tracks, e1) ->
  tracks <> [] ->
  Forall (fun tr => has_frames tr = true) tracks ->
  let t' := exec (diarize_and_transcribe audio_float) t in
  returns (diarize_and_transcribe audio_float) t = true /\
  exists runs : list (list Event * list Transcript),
    Forall2 (fun tr run => attempts (model t) (lang t) audio_float tr (fst run) (snd run))
      tracks runs /\
    events t' =
      events t ++
        Diarized (pipeline_device p) audio_float (diarization_params t) (Ret tracks)
        :: concat (map fst runs) /\
    text_callback t' = received (concat (map snd runs)) t.
Proof.
  intros Hp Hd Hne Hframes.
  unfold exec, returns, diarize_and_transcribe, try_except.
  rewrite (diarize_body_run _ _ _ _ _ Hp Hd).
  replace (len tracks =? 0) with false
    by (destruct tracks; [congruence|reflexivity]).
  set (t1 := diarized p audio_float (Ret tracks) e1 t).
  destruct (diarized_keeps p audio_float (Ret tracks) e1 t)
    as (Hev & Hm & Hl & _ & Hcb & _). fold t1 in Hev, Hm, Hl, Hcb.
  destruct (for_each_segment_run audio_float tracks t1 Hframes)
    as (runs & t' & Hall & Hret & Hev' & Hcb').
  rewrite Hret. cbn [fst snd]. split; [reflexivity|].
  exists runs. rewrite Hm, Hl in Hall. split; [exact Hall|].
  rewrite Hev', Hev, <- app_assoc. split; [reflexivity|].
  rewrite Hcb'. unfold received. now rewrite Hcb.
Qed.

(** The calls the move to the CPU makes are none of them transcription
    calls. *)
Lemma move_models_to_cpu_calls (t : Transcriber) :
  exists moves,
    events (exec move_models_to_cpu t) = events t ++ moves /\ transcribe_calls moves = [].
Proof.
  destruct t as [? ? ? ? [|] [[[|] ?]|] ? ? ? e ? ?];
    unfold exec, move_models_to_cpu, bind, get, when, to_cpu, modify, ret, record;
    cbn;
    repeat match goal with
           | |- context [torch_to_cpu ?e ?w] => destruct (torch_to_cpu e w) as [[[]|?] ?]; cbn
           end;
    eexists; (split; [rewrite <- ?app_assoc; reflexivity || (symmetry; apply app_nil_r)|]);
    reflexivity.
Qed.

(** What the two handlers of [diarize_and_transcribe] ask of the speech
    engine once the [try] block has raised: one whole-chunk call, except
    after an out-of-memory error with a model that cannot be moved, where
    the chunk is given up. *)
Lemma handlers_transcribe_once (audio_float : Audio) (t t1 : Transcriber) (e : exn) :
  diarize_body audio_float t = (Raise e, t1) ->
  exists rest,
    events (exec (diarize_and_transcribe audio_float) t) = events t1 ++ rest /\
    length (transcribe_calls rest) =
      match e with
      | OutOfMemoryError =>
          if returns move_models_to_cpu (exec (print (CudaOutOfMemory e)) t1)
          then 1%nat else 0%nat
      | _ => 1%nat
      end.
Proof.
  intros Hbody.
  assert (Hwhole : forall t2,
             exists answer,
               events (exec (transcribe_whole_chunk audio_float) t2) =
                 events t2 ++ [Transcribed (model t2) audio_float (plain_args (lang t2)) answer] /\
               forall h, events (exec (try_except (transcribe_whole_chunk audio_float)
                                         (fun cpu_e => print (h cpu_e))) t2) =
                 events t2 ++ [Transcribed (model t2) audio_float (plain_args (lang t2)) answer]).
  { intros t2.
    exists (fst (whisper_transcribe (engine t2) (model t2) audio_float (plain_args (lang t2)))).
    unfold exec, try_except. rewrite transcribe_whole_chunk_run.
    destruct (whisper_transcribe (engine t2) (model t2) audio_float (plain_args (lang t2)))
      as [[text|e'] e2]; cbn [fst snd];
      (split; [|intros h]);
      destruct t2 as [? [?|] ? ? ? ? ? ? ? ? ? ?]; reflexivity. }
  assert (Hprint : forall m t2, events (exec (print m) t2) = events t2)
    by (intros m t2; now destruct t2).
  unfold exec in *. unfold diarize_and_transcribe. unfold try_except at 1. rewrite Hbody.
  destruct e.
  - unfold bind at 1. unfold returns.
    destruct (print (CudaOutOfMemory OutOfMemoryError) t1) as [[[]|?] tp] eqn:Eprint;
      [|discriminate].
    assert (events tp = events t1) as Htp
      by (rewrite <- (Hprint (CudaOutOfMemory OutOfMemoryError) t1); now rewrite Eprint).
    cbn [snd]. unfold bind at 1. unfold try_except at 1. unfold bind at 1.
    destruct (move_models_to_cpu_calls tp) as (moves & Hmoves & Hnone).
    unfold exec in Hmoves.
    destruct (move_models_to_cpu tp) as [[[]|move_e] t2]; cbn [fst snd] in *.
    + destruct (Hwhole t2) as (answer & _ & Htry).
      exists (moves ++ [Transcribed (model t2) audio_float (plain_args (lang t2)) answer]).
      unfold ret at 1. cbn beta iota.
      rewrite (Htry CpuRetryFailed), Hmoves, Htp, <- app_assoc. split; [reflexivity|].
      unfold transcribe_calls in *. rewrite flat_map_app, Hnone. reflexivity.
    + exists moves. unfold bind, ret.
      destruct (print (MoveToCpuFailed move_e) t2) as [[[]|?] t3] eqn:Eprint3;
        [|discriminate]. cbn [snd].
      assert (events t3 = events t2) as ->
        by (rewrite <- (Hprint (MoveToCpuFailed move_e) t2); now rewrite Eprint3).
      rewrite Hmoves, Htp. split; [reflexivity|]. now rewrite Hnone.
  - unfold bind.
    destruct (print (DiarizationError Empty) t1) as [[[]|?] tp] eqn:Eprint; [|discriminate].
    assert (events tp = events t1) as Htp
      by (rewrite <- (Hprint (DiarizationError Empty) t1); now rewrite Eprint).
    destruct (Hwhole tp) as (answer & Hev & _). eexists. rewrite Hev, Htp.
    split; reflexivity.
  - unfold bind.
    destruct (print (DiarizationError (Exception what)) t1) as [[[]|?] tp] eqn:Eprint;
      [|discriminate].
    assert (events tp = events t1) as Htp
      by (rewrite <- (Hprint (DiarizationError (Exception what)) t1); now rewrite Eprint).
    destruct (Hwhole tp) as (answer & Hev & _). eexists. rewrite Hev, Htp.
    split; reflexivity.
Qed.

(** C6 (as the code has it). When the diarizer returns no segment, the
    whole chunk is transcribed with the configured language and no
    speaker. If that call returns, it is the only transcription call made
    for the chunk, and its stripped text goes to the text callback exactly
    when it is not empty. If that call raises, the handlers of the method
    transcribe the whole chunk exactly once more -- two calls in all --
    except after an out-of-memory error with a model that cannot be moved
    to the CPU, where no further call is made. *)
Theorem zero_segments_one_whole_chunk_call (audio_float : Audio) (t : Transcriber)
    (p : Pipeline) (e1 : Engine) :
  diarization_pipeline t = Some p ->
  pyannote_diarize (engine t) (tuned p) audio_float (diarization_params t) = (Ret [], e1) ->
  let t' := exec (diarize_and_transcribe audio_float) t in
  let no_segments :=
    Diarized (pipeline_device p) audio_float (diarization_params t) (Ret []) in
  let whole_chunk := Transcribed (model t) audio_float (plain_args (lang t)) in
  match fst (whisper_transcribe e1 (model t) audio_float (plain_args (lang t))) with
  | Ret text =>
      returns (diarize_and_transcribe audio_float) t = true /\
      events t' = events t ++ [no_segments; whole_chunk (Ret text)] /\
      text_callback t' =
        received (if nonempty (strip text) then [(strip text, LOOPBACK, None)] else []) t
  | Raise e =>
      let t1 := exec (diarize_body audio_float) t in
      exists rest,
        events t' = events t ++ no_segments :: whole_chunk (Raise e) :: rest /\
        length (transcribe_calls rest) =
          match e with
          | OutOfMemoryError =>
              if returns move_models_to_cpu (exec (print (CudaOutOfMemory e)) t1)
              then 1%nat else 0%nat
          | _ => 1%nat
          end
  end.
Proof.
  intros Hp Hd. cbv zeta.
  pose proof (diarize_body_run _ _ _ _ _ Hp Hd) as Hbody.
  cbn [len length Z.of_nat Z.eqb] in Hbody.
  rewrite transcribe_whole_chunk_run in Hbody.
  destruct (diarized_keeps p audio_float (Ret []) e1 t)
    as (Hev & Hm & Hl & He & Hcb & _).
  rewrite He, Hm, Hl in Hbody.
  destruct (whisper_transcribe e1 (model t) audio_float (plain_args (lang t)))
    as [[text|e] e2]; cbn [fst snd] in *.
  - unfold exec, returns, diarize_and_transcribe, try_except. rewrite Hbody.
    cbn [fst snd]. split; [reflexivity|].
    set (t1 := diarized p audio_float (Ret []) e1 t) in *.
    destruct t1 as [? [?|] ? ? ? ? ? ? ? ? ? ?]; cbn in *; subst;
      unfold received; rewrite <- Hcb; cbn; rewrite <- ?app_assoc; auto.
  - destruct (handlers_transcribe_once _ _ _ _ Hbody) as (rest & Hrest & Hcount).
    exists rest. unfold exec at 3. rewrite Hbody. cbn [snd]. split; [|exact Hcount].
    rewrite Hrest.
    set (t1 := diarized p audio_float (Ret []) e1 t) in *.
    destruct t1; cbn in *; subst. rewrite <- !app_assoc. reflexivity.
Qed.

(** C10. A loopback chunk of a consumer with a pipeline is handed to
    [diarize_and_transcribe]. If the [try] block of that method raises
    anything but [torch.OutOfMemoryError], the failure is printed and the
    whole chunk is transcribed once, with the configured language and no
    speaker; the text, with the whitespace stripped from both ends,
    reaches the text callback exactly when the call returns one that is
    not empty. No turn of the consumer loop raises, so the consumer goes
    on to the next chunk. *)
Theorem diarization_failure_falls_back_to_whole_chunk (audio_float : Audio)
    (t t1 : Transcriber) (e : exn) :
  e <> OutOfMemoryError ->
  diarize_body audio_float t = (Raise e, t1) ->
  let t' := exec (diarize_and_transcribe audio_float) t in
  let answer :=
    fst (whisper_transcribe (engine t1) (model t1) audio_float (plain_args (lang t1))) in
  events t' = events t1 ++ [Transcribed (model t1) audio_float (plain_args (lang t1)) answer] /\
  console t' = console t1 ++ [DiarizationError e] /\
  text_callback t' =
    received match answer with
             | Ret text => if nonempty (strip text) then [(strip text, LOOPBACK, None)] else []
             | Raise _ => []
             end t1 /\
  (forall t0, queue_ok t0 -> returns run_iteration t0 = true /\ queue_ok (exec run_iteration t0)) /\
  (forall t0 p, diarization_pipeline t0 = Some p ->
                transcribe_chunk audio_float LOOPBACK t0 = diarize_and_transcribe audio_float t0).
Proof.
  intros Hne Hbody. cbv zeta.
  split; [|split; [|split; [|split; [apply run_iteration_returns|]]]];
    [| | |intros t0 p Hp; unfold transcribe_chunk, bind, get; now rewrite Hp];
    unfold exec, diarize_and_transcribe, try_except; rewrite Hbody;
    destruct e; try congruence;
    unfold bind, print, modify; rewrite transcribe_whole_chunk_run;
    match goal with
    | |- context [whisper_transcribe (engine ?x) _ _ _] =>
        assert (engine x = engine t1 /\ model x = model t1 /\ lang x = lang t1)
          as (-> & -> & ->) by (now destruct t1)
    end;
    destruct (whisper_transcribe (engine t1) (model t1) audio_float (plain_args (lang t1)))
      as [[text|e'] e2]; cbn [fst snd];
    destruct t1 as [? [?|] ? ? ? ? ? ? ? ? ? ?]; cbn;
    rewrite ?app_nil_r; reflexivity.
Qed.

(** *** Out of accelerator memory *)

Lemma move_models_to_cpu_moved (t t2 : Transcriber) :
  move_models_to_cpu t = (Ret tt, t2) ->
  all_on_cpu t2 /\ lang t2 = lang t /\
  text_callback t2 = text_callback t /\ console t2 = console t.
Proof.
  destruct t as [? ? ? ? [|] [[[|] ?]|] ? ? ? e ? ?];
    unfold move_models_to_cpu, bind, get, when, to_cpu, modify, ret, record,
      all_on_cpu, pipeline_on_cpu;
    cbn;
    repeat match goal with
           | |- context [torch_to_cpu ?e ?w] => destruct (torch_to_cpu e w) as [[[]|?] ?]; cbn
           end;
    intros H; inversion H; subst; cbn; auto.
Qed.

(** C2 (as the code has it). If the [try] block of
    [diarize_and_transcribe] -- the diarizer call, or the whole-chunk
    transcription after zero segments -- raises [torch.OutOfMemoryError]
    and the models can be moved, then both the speech model and the
    pipeline are on the CPU afterwards, the same chunk is transcribed
    exactly once more, whole and on the CPU, and a failure of that retry is
    printed and swallowed. From then on the consumer loop keeps both on the
    CPU and makes every engine call there; no turn of the loop raises. *)
Theorem out_of_memory_in_diarization_retries_on_cpu (audio_float : Audio)
    (t t1 t2 : Transcriber) :
  diarize_body audio_float t = (Raise OutOfMemoryError, t1) ->
  move_models_to_cpu (exec (print (CudaOutOfMemory OutOfMemoryError)) t1) = (Ret tt, t2) ->
  let t' := exec (diarize_and_transcribe audio_float) t in
  let answer := fst (whisper_transcribe (engine t2) cpu audio_float (plain_args (lang t1))) in
  returns (diarize_and_transcribe audio_float) t = true /\
  all_on_cpu t' /\
  events t' = events t2 ++ [Transcribed cpu audio_float (plain_args (lang t1)) answer] /\
  text_callback t' = received (heard answer None) t1 /\
  console t' =
    console t1 ++
      CudaOutOfMemory OutOfMemoryError
      :: match answer with Raise e => [CpuRetryFailed e] | Ret _ => [] end /\
  (forall fuel,
      let later := exec (run fuel) t' in
      all_on_cpu later /\
      exists new, events later = events t' ++ new /\ Forall on_cpu new) /\
  (forall t0, queue_ok t0 -> returns run_iteration t0 = true /\ queue_ok (exec run_iteration t0)).
Proof.
  intros Hbody Hmove. cbv zeta.
  destruct (move_models_to_cpu_moved _ _ Hmove) as ([Hm Hp] & Hl & Hcb & Hco).
  assert (Hrun :
            diarize_and_transcribe audio_float t =
              try_except (transcribe_whole_chunk audio_float)
                (fun cpu_e => print (CpuRetryFailed cpu_e)) t2).
  { unfold diarize_and_transcribe. unfold try_except at 1. rewrite Hbody.
    unfold bind at 1. unfold exec in Hmove.
    destruct (print (CudaOutOfMemory OutOfMemoryError) t1) as [[[]|?] t1'] eqn:Hprint;
      [|discriminate].
    cbn [snd] in Hmove. unfold bind at 1. unfold try_except at 1. unfold bind at 1.
    rewrite Hmove. reflexivity. }
  assert (Hlang : lang t2 = lang t1) by (rewrite Hl; now destruct t1).
  assert (Hcb1 : text_callback t2 = text_callback t1) by (rewrite Hcb; now destruct t1).
  assert (Hco1 : console t2 = console t1 ++ [CudaOutOfMemory OutOfMemoryError])
    by (rewrite Hco; now destruct t1).
  assert (Hfinal :
            returns (diarize_and_transcribe audio_float) t = true /\
            all_on_cpu (exec (diarize_and_transcribe audio_float) t) /\
            events (exec (diarize_and_transcribe audio_float) t) =
              events t2 ++
                [Transcribed cpu audio_float (plain_args (lang t1))
                   (fst (whisper_transcribe (engine t2) cpu audio_float
                           (plain_args (lang t1))))] /\
            text_callback (exec (diarize_and_transcribe audio_float) t) =
              received
                (heard (fst (whisper_transcribe (engine t2) cpu audio_float
                               (plain_args (lang t1)))) None) t1 /\
            console (exec (diarize_and_transcribe audio_float) t) =
              console t1 ++
                CudaOutOfMemory OutOfMemoryError
                :: match fst (whisper_transcribe (engine t2) cpu audio_float
                                (plain_args (lang t1))) with
                   | Raise e => [CpuRetryFailed e]
                   | Ret _ => []
                   end).
  { unfold returns, exec. rewrite Hrun. unfold try_except.
    rewrite transcribe_whole_chunk_run. rewrite Hm, Hlang.
    unfold all_on_cpu, pipeline_on_cpu, received in *. rewrite <- Hcb1.
    destruct (whisper_transcribe (engine t2) cpu audio_float (plain_args (lang t1)))
      as [[text|e] e2]; cbn [fst snd];
      destruct t2 as [? [?|] ? ? ? ? ? ? ? ? ? ?]; cbn in *; subst;
      rewrite ?app_nil_r; repeat split; auto;
      rewrite ?Hco1, <- ?app_assoc; reflexivity. }
  destruct Hfinal as (Hret & Hall & Hev & Htc & Hcon).
  repeat split; try assumption; try apply Hall; try (now apply run_iteration_returns).
  - destruct (run_stays_on_cpu fuel (exec (diarize_and_transcribe audio_float) t))
      as (_ & Hmodel & _). apply Hmodel, Hall.
  - destruct (run_stays_on_cpu fuel (exec (diarize_and_transcribe audio_float) t))
      as (_ & _ & Hpipe). apply Hpipe, Hall.
  - destruct (run_stays_on_cpu fuel (exec (diarize_and_transcribe audio_float) t))
      as ((new & Hnew & Hon) & _ & _). exists new. split; [exact Hnew|]. now apply Hon.
Qed.

(** *** What reaches the text callback *)

(** A text with no whitespace at either end: it neither starts nor ends
    with the bytes of a whitespace character. *)
Definition trimmed (text : string) : Prop :=
  after_any spaces (list_ascii_of_string text) = None /\
  after_any (map (@rev ascii) spaces) (rev (list_ascii_of_string text)) = None.

Lemma spaces_encode_whitespace : spaces = map utf8 whitespace.
Proof. reflexivity. Qed.

Lemma spaces_not_empty :
  Forall (fun p => p <> []) spaces /\ Forall (fun p => p <> []) (map (@rev ascii) spaces).
Proof. split; unfold spaces; cbn [map rev app]; repeat constructor; discriminate. Qed.

Lemma after_prefix_length (p l rest : list ascii) :
  after_prefix p l = Some rest -> rest = skipn (length p) l /\ length l = (length p + length rest)%nat.
Proof.
  revert l. induction p as [|a p IH]; intros [|b l]; cbn; try discriminate;
    try (intros H; inversion H; now split).
  destruct (Ascii.eqb a b); [|discriminate].
  intros H. destruct (IH l H) as [-> Hlen]. split; [reflexivity|]. now rewrite Hlen.
Qed.

Lemma after_any_length (pats : list (list ascii)) (l rest : list ascii) :
  Forall (fun p => p <> []) pats ->
  after_any pats l = Some rest ->
  (exists k, rest = skipn k l) /\ (length rest < length l)%nat.
Proof.
  induction 1 as [|p more Hp _ IH]; cbn; [discriminate|].
  destruct (after_prefix p l) as [r|] eqn:E; [|exact IH].
  intros H. inversion H; subst. destruct (after_prefix_length _ _ _ E) as [Hr Hlen].
  split; [now exists (length p)|]. destruct p; [congruence|]. cbn in Hlen. lia.
Qed.

Lemma after_any_nil (pats : list (list ascii)) :
  Forall (fun p => p <> []) pats -> after_any pats [] = None.
Proof.
  induction 1 as [|p more Hp _ IH]; cbn; [reflexivity|].
  destruct p; [congruence|exact IH].
Qed.

Lemma drop_leading_done (pats : list (list ascii)) (fuel : nat) (l : list ascii) :
  Forall (fun p => p <> []) pats ->
  (length l <= fuel)%nat ->
  after_any pats (drop_leading pats fuel l) = None.
Proof.
  intros Hpats. revert l. induction fuel as [|fuel IH]; intros l Hlen; cbn.
  - destruct l; [now apply after_any_nil|cbn in Hlen; lia].
  - destruct (after_any pats l) as [rest|] eqn:E; [|exact E].
    apply IH. destruct (after_any_length _ _ _ Hpats E) as [_ Hshort]. lia.
Qed.

Lemma drop_leading_is_a_suffix (pats : list (list ascii)) (fuel : nat) (l : list ascii) :
  Forall (fun p => p <> []) pats ->
  exists k, drop_leading pats fuel l = skipn k l.
Proof.
  intros Hpats. revert l. induction fuel as [|fuel IH]; intros l; cbn; [now exists 0%nat|].
  destruct (after_any pats l) as [rest|] eqn:E; [|now exists 0%nat].
  destruct (after_any_length _ _ _ Hpats E) as [[k ->] _].
  destruct (IH (skipn k l)) as [k' ->]. exists (k' + k)%nat. apply skipn_skipn.
Qed.

Lemma after_prefix_firstn (p l : list ascii) (m : nat) :
  after_prefix p (firstn m l) <> None -> after_prefix p l <> None.
Proof.
  revert l m. induction p as [|a p IH]; intros l m; [now destruct l|].
  destruct m, l as [|b l]; cbn; try congruence.
  destruct (Ascii.eqb a b); [apply IH|congruence].
Qed.

Lemma after_any_firstn (pats : list (list ascii)) (l : list ascii) (m : nat) :
  after_any pats l = None -> after_any pats (firstn m l) = None.
Proof.
  induction pats as [|p more IH]; cbn; [reflexivity|].
  destruct (after_prefix p l) eqn:E; [discriminate|]. intros H.
  destruct (after_prefix p (firstn m l)) eqn:E'; [|now apply IH].
  exfalso. apply (after_prefix_firstn p l m); congruence.
Qed.

Lemma strip_is_trimmed (raw : string) : trimmed (strip raw).
Proof.
  destruct spaces_not_empty as [Hfront Hback].
  unfold trimmed, strip, rstrip. rewrite list_ascii_of_string_of_list_ascii, rev_involutive.
  set (front := lstrip (list_ascii_of_string raw)).
  split.
  - destruct (drop_leading_is_a_suffix (map (@rev ascii) spaces) (length front) (rev front) Hback)
      as [k ->].
    rewrite skipn_rev, rev_involutive. apply after_any_firstn.
    now apply drop_leading_done.
  - apply drop_leading_done; [exact Hback|]. now rewrite length_rev.
Qed.

(** A transcript as the callback should see it: a text that is not empty
    and is trimmed, with a speaker only on the loopback. *)
Definition well_formed (tr : Transcript) : Prop :=
  let '(text, source, sp) := tr in
  nonempty text = true /\ trimmed text /\ (sp <> None -> source = LOOPBACK).

(** The text callback is only ever handed further well-formed
    transcripts; a consumer without a callback stays without one. *)
Definition only_adds (t t' : Transcriber) : Prop :=
  match text_callback t with
  | Some before =>
      exists new, text_callback t' = Some (before ++ new) /\ Forall well_formed new
  | None => text_callback t' = None
  end.

Lemma only_adds_same (t t' : Transcriber) :
  text_callback t' = text_callback t -> only_adds t t'.
Proof.
  intros H. unfold only_adds. rewrite H. destruct (text_callback t); [|reflexivity].
  exists []. now rewrite app_nil_r.
Qed.

Lemma only_adds_refl (t : Transcriber) : only_adds t t.
Proof. now apply only_adds_same. Qed.

Lemma only_adds_trans (a b c : Transcriber) :
  only_adds a b -> only_adds b c -> only_adds a c.
Proof.
  unfold only_adds. destruct (text_callback a) as [before|].
  - intros (n1 & -> & F1) (n2 & -> & F2). exists (n1 ++ n2).
    rewrite app_assoc. split; [reflexivity|]. apply Forall_app. now split.
  - intros ->. auto.
Qed.

Create HintDb transcript_steps.

Lemma print_only_adds (m : Msg) (t : Transcriber) : leads only_adds (print m) t.
Proof. apply only_adds_same. now destruct t. Qed.

Lemma model_transcribe_only_adds audio args (t : Transcriber) :
  leads only_adds (model_transcribe audio args) t.
Proof.
  apply only_adds_same. unfold model_transcribe.
  destruct (whisper_transcribe _ _ _ _). now destruct t.
Qed.

Lemma pipeline_call_only_adds p audio args (t : Transcriber) :
  leads only_adds (pipeline_call p audio args) t.
Proof.
  apply only_adds_same. unfold pipeline_call.
  destruct (pyannote_diarize _ _ _ _). now destruct t.
Qed.

Lemma to_cpu_only_adds what (t : Transcriber) : leads only_adds (to_cpu what) t.
Proof.
  apply only_adds_same. unfold to_cpu. destruct (torch_to_cpu _ _). now destruct t.
Qed.

Lemma set_pipeline_only_adds v (t : Transcriber) :
  leads only_adds (modify (set_diarization_pipeline v)) t.
Proof. apply only_adds_same. now destruct t. Qed.

Lemma set_model_only_adds v (t : Transcriber) :
  leads only_adds (modify (set_model v)) t.
Proof. apply only_adds_same. now destruct t. Qed.

Lemma queue_get_only_adds (t : Transcriber) : leads only_adds queue_get t.
Proof.
  apply only_adds_same. unfold queue_get.
  destruct (items (audio_queue t)); now destruct t.
Qed.

Lemma task_done_only_adds (t : Transcriber) : leads only_adds task_done t.
Proof.
  apply only_adds_same. unfold task_done. destruct (_ <? 0); now destruct t.
Qed.

Lemma emit_unlabelled_only_adds raw source (t : Transcriber) :
  nonempty (strip raw) = true ->
  leads only_adds (emit (strip raw) source None) t.
Proof.
  intros Hne. unfold leads, only_adds, emit, modify.
  destruct t as [? [before|] ? ? ? ? ? ? ? ? ? ?]; cbn; [|reflexivity].
  eexists. split; [reflexivity|]. constructor; [|constructor].
  split; [exact Hne|]. split; [apply strip_is_trimmed|congruence].
Qed.

Lemma emit_labelled_only_adds raw sp (t : Transcriber) :
  nonempty (strip raw) = true ->
  leads only_adds (emit (strip raw) LOOPBACK (Some sp)) t.
Proof.
  intros Hne. unfold leads, only_adds, emit, modify.
  destruct t as [? [before|] ? ? ? ? ? ? ? ? ? ?]; cbn; [|reflexivity].
  eexists. split; [reflexivity|]. constructor; [|constructor].
  split; [exact Hne|]. split; [apply strip_is_trimmed|reflexivity].
Qed.

Hint Resolve print_only_adds model_transcribe_only_adds pipeline_call_only_adds
  to_cpu_only_adds set_pipeline_only_adds set_model_only_adds queue_get_only_adds
  task_done_only_adds emit_unlabelled_only_adds emit_labelled_only_adds
  : transcript_steps.

Lemma _transcribe_standard_only_adds audio source (t : Transcriber) :
  leads only_adds (_transcribe_standard audio source) t.
Proof.
  unfold _transcribe_standard. walk only_adds_refl only_adds_trans transcript_steps.
Qed.

Lemma transcribe_whole_chunk_only_adds audio (t : Transcriber) :
  leads only_adds (transcribe_whole_chunk audio) t.
Proof.
  unfold transcribe_whole_chunk. cbv zeta.
  walk only_adds_refl only_adds_trans transcript_steps.
Qed.

Lemma transcribe_segment_only_adds audio tr (t : Transcriber) :
  leads only_adds (transcribe_segment audio tr) t.
Proof.
  unfold transcribe_segment. cbv zeta.
  walk only_adds_refl only_adds_trans transcript_steps.
Qed.

Hint Resolve _transcribe_standard_only_adds transcribe_whole_chunk_only_adds
  transcribe_segment_only_adds : transcript_steps.

Lemma diarize_body_only_adds audio (t : Transcriber) :
  leads only_adds (diarize_body audio) t.
Proof.
  unfold diarize_body. cbv zeta. walk only_adds_refl only_adds_trans transcript_steps.
  apply (for_each_leads _ only_adds_refl only_adds_trans). auto with transcript_steps.
Qed.

Lemma move_models_to_cpu_only_adds (t : Transcriber) :
  leads only_adds move_models_to_cpu t.
Proof.
  unfold move_models_to_cpu. walk only_adds_refl only_adds_trans transcript_steps.
Qed.

Hint Resolve diarize_body_only_adds move_models_to_cpu_only_adds : transcript_steps.

Lemma diarize_and_transcribe_only_adds audio (t : Transcriber) :
  leads only_adds (diarize_and_transcribe audio) t.
Proof.
  unfold diarize_and_transcribe. walk only_adds_refl only_adds_trans transcript_steps.
Qed.

Hint Resolve diarize_and_transcribe_only_adds : transcript_steps.

Lemma transcribe_chunk_only_adds audio source (t : Transcriber) :
  leads only_adds (transcribe_chunk audio source) t.
Proof.
  unfold transcribe_chunk. walk only_adds_refl only_adds_trans transcript_steps.
Qed.

Hint Resolve transcribe_chunk_only_adds : transcript_steps.

Lemma run_iteration_only_adds (t : Transcriber) : leads only_adds run_iteration t.
Proof.
  unfold run_iteration. walk only_adds_refl only_adds_trans transcript_steps.
Qed.

(** X11. However long the consumer loop runs and whatever the engines
    answer, the text callback only ever receives further transcripts, and
    each of them has a text that is not empty and has no whitespace -- of
    ASCII or of the rest of Unicode, as [str.strip] takes it -- at either
    end, and carries a speaker label only if its source is the
    loopback; what the callback received before is never changed, and a
    consumer without a callback stays without one. *)
Theorem transcripts_are_never_empty (fuel : nat) (t : Transcriber) :
  match text_callback t with
  | Some before =>
      exists new,
        text_callback (exec (run fuel) t) = Some (before ++ new) /\
        Forall well_formed new
  | None => text_callback (exec (run fuel) t) = None
  end.
Proof.
  change (leads only_adds (run fuel) t).
  revert t. induction fuel as [|fuel IH]; intros t; cbn [run].
  - apply only_adds_refl.
  - walk only_adds_refl only_adds_trans transcript_steps;
      auto using run_iteration_only_adds.
Qed.

(** *** The queue under the loop *)

(** One turn: it returns, takes the first chunk off the queue if there is
    one, and leaves the settings alone. *)
Lemma run_iteration_turn (t : Transcriber) :
  queue_ok t ->
  let t' := exec run_iteration t in
  returns run_iteration t = true /\
  items (audio_queue t') = tl (items (audio_queue t)) /\
  queue_ok t' /\
  stop_event t' = stop_event t /\
  recording_enabled t' = recording_enabled t /\
  transcription_language t' = transcription_language t.
Proof.
  unfold queue_ok, returns, exec, run_iteration, try_except, bind, queue_get.
  intros Hq.
  destruct (items (audio_queue t)) as [|[audio source] rest] eqn:Hitems.
  { cbn. rewrite Hitems. auto 10. }
  unfold len in Hq. cbn [length] in Hq. cbn [tl].
  set (t0 := set_audio_queue _ t).
  assert (items (audio_queue t0) = rest /\
          unfinished_tasks (audio_queue t0) = unfinished_tasks (audio_queue t) /\
          stop_event t0 = stop_event t /\ recording_enabled t0 = recording_enabled t /\
          transcription_language t0 = transcription_language t)
    as (Hi & Hu & Hs & Hr & Hl) by (now destruct t).
  unfold get. cbn beta iota. rewrite <- Hs, <- Hr, <- Hl.
  destruct (recording_enabled t0) eqn:Hrec; cbn [negb].
  - pose proof (transcribe_chunk_same_setup audio source t0) as (Hsame & Hl1 & Hr1 & Hs1).
    destruct (transcribe_chunk audio source t0) as [[[]|e] t1];
      cbn [snd] in Hsame, Hl1, Hr1, Hs1.
    + rewrite task_done_counts_off by (rewrite Hsame; lia).
      cbn. destruct t1. cbn in *. rewrite Hsame, Hi. unfold len.
      repeat split; auto; try congruence; lia.
    + assert (1 <= unfinished_tasks (audio_queue (exec (print (TranscriptionError e)) t1)))
        as Hone by (destruct t1; cbn in *; rewrite Hsame; lia).
      unfold exec in Hone.
      destruct e; cbn beta iota;
        try (unfold bind; unfold print, modify in *; cbn [fst snd] in *;
             rewrite task_done_counts_off by exact Hone);
        destruct t1; cbn in *; rewrite Hsame, Hi; unfold len; repeat split; auto; try congruence; lia.
  - rewrite task_done_counts_off by lia. cbn. destruct t0. cbn in *.
    subst. unfold len. repeat split; auto; try congruence; lia.
Qed.

(** X12. Until it is stopped, the loop takes the chunks off the queue
    strictly in queue order, one per turn, and no turn raises, whatever
    the engines do: after [fuel] turns exactly the first [fuel] chunks are
    gone. The loop itself never changes the stop flag, the recording flag
    or the language. *)
Theorem run_takes_chunks_in_order (fuel : nat) (t : Transcriber) :
  queue_ok t ->
  stop_event t = false ->
  let t' := exec (run fuel) t in
  returns (run fuel) t = true /\
  items (audio_queue t') = skipn fuel (items (audio_queue t)) /\
  queue_ok t' /\
  stop_event t' = false /\
  recording_enabled t' = recording_enabled t /\
  transcription_language t' = transcription_language t.
Proof.
  revert t. induction fuel as [|fuel IH]; intros t Hq Hstop.
  - cbn. auto 10.
  - destruct (run_iteration_turn t Hq) as (Hret & Hitems & Hq1 & Hs1 & Hr1 & Hl1).
    rewrite Hstop in Hs1.
    assert (Hstep : run (S fuel) t = run fuel (exec run_iteration t)).
    { cbn [run]. unfold bind, get. rewrite Hstop. unfold returns, exec in *.
      destruct (run_iteration t) as [[[]|e] t1]; [reflexivity|discriminate]. }
    destruct (IH (exec run_iteration t) Hq1 Hs1) as (Hret' & Hitems' & Hq' & Hs' & Hr' & Hl').
    unfold returns, exec in *. rewrite Hstep.
    repeat split; auto; try congruence.
    rewrite Hitems', Hitems. now destruct (items (audio_queue t)), fuel.
Qed.

(** One turn while recording is not enabled. *)
Lemma run_iteration_disabled (t : Transcriber) :
  queue_ok t ->
  recording_enabled t = false ->
  run_iteration t =
    (Ret tt,
     match items (audio_queue t) with
     | [] => t
     | _ :: rest => set_audio_queue (mkQueue rest (unfinished_tasks (audio_queue t) - 1)) t
     end).
Proof.
  unfold queue_ok, run_iteration, try_except, bind, queue_get. intros Hq Hrec.
  destruct (items (audio_queue t)) as [|[audio source] rest] eqn:Hitems; [reflexivity|].
  unfold len in Hq. cbn [length] in Hq.
  unfold get. cbn beta iota.
  assert (forall q, recording_enabled (set_audio_queue q t) = recording_enabled t) as ->
    by (now destruct t).
  rewrite Hrec. cbn [negb].
  rewrite task_done_counts_off by (destruct t; cbn in *; lia).
  now destruct t.
Qed.

(** X13. While recording is not enabled the loop still drains the queue,
    one chunk per turn, counting each as done, but does nothing with the
    chunks: no engine is called, nothing reaches the text callback, and
    nothing is printed. *)
Theorem disabled_consumer_only_drains (fuel : nat) (t : Transcriber) :
  queue_ok t ->
  stop_event t = false ->
  recording_enabled t = false ->
  let t' := exec (run fuel) t in
  items (audio_queue t') = skipn fuel (items (audio_queue t)) /\
  unfinished_tasks (audio_queue t') =
    unfinished_tasks (audio_queue t) - Z.min (Z.of_nat fuel) (len (items (audio_queue t))) /\
  events t' = events t /\
  engine t' = engine t /\
  text_callback t' = text_callback t /\
  console t' = console t.
Proof.
  revert t. induction fuel as [|fuel IH]; intros t Hq Hstop Hrec.
  - cbn. rewrite Z.min_l by (unfold len; lia). repeat split; auto; lia.
  - assert (Hstep : run (S fuel) t = run fuel (exec run_iteration t)).
    { cbn [run]. unfold bind, get. rewrite Hstop. unfold exec.
      now rewrite (run_iteration_disabled t Hq Hrec). }
    unfold exec in *. rewrite Hstep, (run_iteration_disabled t Hq Hrec). cbn [snd].
    unfold queue_ok in Hq.
    destruct (items (audio_queue t)) as [|item rest] eqn:Hitems.
    + assert (queue_ok t) as Hq0 by (unfold queue_ok; now rewrite Hitems).
      destruct (IH t Hq0 Hstop Hrec) as (Hi & Hu & He & Hg & Hc & Hco).
      rewrite Hitems in Hi, Hu. rewrite Hi, Hu, skipn_nil. unfold len. cbn.
      repeat split; auto. lia.
    + set (t1 := set_audio_queue _ t).
      assert (items (audio_queue t1) = rest /\
              unfinished_tasks (audio_queue t1) = unfinished_tasks (audio_queue t) - 1 /\
              stop_event t1 = false /\ recording_enabled t1 = false /\
              events t1 = events t /\ engine t1 = engine t /\
              text_callback t1 = text_callback t /\ console t1 = console t)
        as (Hi1 & Hu1 & Hs1 & Hr1 & He1 & Hg1 & Hc1 & Hco1)
        by (subst t1; destruct t; cbn in *; auto 10).
      unfold len in Hq. cbn [length] in Hq.
      assert (queue_ok t1) as Hq1
        by (unfold queue_ok; rewrite Hi1, Hu1; unfold len; lia).
      destruct (IH t1 Hq1 Hs1 Hr1) as (Hi & Hu & He & Hg & Hc & Hco).
      rewrite Hi, Hu, He, Hg, Hc, Hco, Hi1, Hu1. cbn [skipn].
      repeat split; auto. unfold len. cbn [length]. lia.
Qed.

(** *** Edges of the diarized path *)

(** X14. Without a diarization pipeline a loopback chunk is neither
    diarized nor gated by the silence test: whatever its RMS, it costs
    exactly one transcription call, whole, with the configured language
    and none of the MIC thresholds. *)
Theorem loopback_without_diarizer_is_not_gated (audio_float : Audio) (t : Transcriber) :
  diarization_pipeline t = None ->
  events (exec (transcribe_chunk audio_float LOOPBACK) t) =
    events t ++
      [Transcribed (model t) audio_float (plain_args (lang t))
         (fst (whisper_transcribe (engine t) (model t) audio_float (plain_args (lang t))))].
Proof.
  intros Hnone. unfold exec, transcribe_chunk, bind, get. rewrite Hnone.
  unfold _transcribe_standard, bind, get. rewrite model_transcribe_run.
  destruct (whisper_transcribe (engine t) (model t) audio_float (plain_args (lang t)))
    as [[text|e] e1]; cbn [fst snd]; [|now destruct t].
  destruct (nonempty (strip text)); destruct t as [? [?|] ? ? ? ? ? ? ? ? ? ?]; reflexivity.
Qed.

Lemma short_segments_make_no_call (on : Device) (l : option string) (audio_float : Audio)
    (tracks : list Track) (runs : list (list Event * list Transcript)) :
  Forall2 (fun tr run => attempts on l audio_float tr (fst run) (snd run)) tracks runs ->
  Forall (fun tr => exists cut, segment_audio audio_float tr = Ret cut /\
                                len cut < MIN_SEGMENT_FRAMES) tracks ->
  concat (map fst runs) = [] /\ concat (map snd runs) = [].
Proof.
  induction 1 as [|tr run tracks' runs' Hatt _ IH]; intros Hshort; [now split|].
  inversion Hshort as [|? ? (cut & Hcut & Hlen) Hrest]; subst.
  destruct (IH Hrest) as [IH1 IH2]. cbn [map concat]. rewrite IH1, IH2.
  destruct run as [evs said]. cbn [fst snd] in *.
  inversion Hatt as [cut' Hcut' Hlen'|cut' text Hcut' Hlen'|cut' e answer Hcut' Hlen'];
    subst; rewrite Hcut in Hcut'; inversion Hcut'; subst; try lia. now split.
Qed.

Lemma cut_has_frames (audio_float : Audio) (tr : Track) (cut : Audio) :
  segment_audio audio_float tr = Ret cut -> has_frames tr = true.
Proof.
  unfold segment_audio, has_frames.
  destruct (int (start tr * 16000)); [|discriminate]. now destruct (int (end_ tr * 16000)).
Qed.

(** X15. When the diarizer returns segments but every one of them is cut
    to fewer than the floor of 3200 frames, the chunk yields nothing: no
    transcription call is made -- the whole chunk is not transcribed
    either -- and the text callback receives nothing. *)
Theorem only_short_segments_yield_nothing (audio_float : Audio) (t : Transcriber)
    (p : Pipeline) (tracks : list Track) (e1 : Engine) :
  diarization_pipeline t = Some p ->
  pyannote_diarize (engine t) (tuned p) audio_float (diarization_params t) =
    (Ret tracks, e1) ->
  tracks <> [] ->
  Forall (fun tr => exists cut, segment_audio audio_float tr = Ret cut /\
                                len cut < MIN_SEGMENT_FRAMES) tracks ->
  let t' := exec (diarize_and_transcribe audio_float) t in
  returns (diarize_and_transcribe audio_float) t = true /\
  events t' =
    events t ++
      [Diarized (pipeline_device p) audio_float (diarization_params t) (Ret tracks)] /\
  text_callback t' = text_callback t.
Proof.
  intros Hp Hd Hne Hshort.
  assert (Hframes : Forall (fun tr => has_frames tr = true) tracks).
  { apply Forall_forall. intros tr Hin.
    destruct (proj1 (Forall_forall _ _) Hshort tr Hin) as (cut & Hcut & _).
    now apply (cut_has_frames audio_float tr cut). }
  unfold exec, returns, diarize_and_transcribe, try_except.
  rewrite (diarize_body_run _ _ _ _ _ Hp Hd).
  replace (len tracks =? 0) with false
    by (destruct tracks; [congruence|reflexivity]).
  set (t1 := diarized p audio_float (Ret tracks) e1 t).
  destruct (diarized_keeps p audio_float (Ret tracks) e1 t)
    as (Hev & _ & _ & _ & Hcb & _). fold t1 in Hev, Hcb.
  destruct (for_each_segment_run audio_float tracks t1 Hframes)
    as (runs & t' & Hall & Hret & Hev' & Hcb').
  rewrite Hret. cbn [fst snd]. split; [reflexivity|].
  destruct (short_segments_make_no_call _ _ _ _ _ Hall Hshort) as [He Hs].
  rewrite Hev', Hcb', He, Hs, app_nil_r, Hev. split; [reflexivity|].
  unfold received. rewrite Hcb. destruct (text_callback t); cbn;
    rewrite ?app_nil_r; reflexivity.
Qed.

(** X16. [diarize_and_transcribe] lets an exception out in one case only:
    its [try] block raised something other than
    [torch.OutOfMemoryError], and the whole-chunk transcription it fell
    back to raised as well -- and that second exception is the one that
    gets out. After an out-of-memory error it always returns. *)
Theorem diarize_and_transcribe_raises_only_twice_failed (audio_float : Audio)
    (t : Transcriber) (e : exn) :
  fst (diarize_and_transcribe audio_float t) = Raise e ->
  exists e0 t1,
    diarize_body audio_float t = (Raise e0, t1) /\
    e0 <> OutOfMemoryError /\
    fst (whisper_transcribe (engine t1) (model t1) audio_float (plain_args (lang t1))) =
      Raise e.
Proof.
  unfold diarize_and_transcribe. unfold try_except at 1.
  destruct (diarize_body audio_float t) as [[[]|e0] t1] eqn:Hbody; [discriminate|].
  intros Hraise. exists e0, t1. split; [reflexivity|].
  assert (Hfallback :
            forall err,
              fst ((print (DiarizationError err) ;; transcribe_whole_chunk audio_float) t1)
              = Raise e ->
              fst (whisper_transcribe (engine t1) (model t1) audio_float
                     (plain_args (lang t1))) = Raise e).
  { intros err. unfold bind, print, modify. rewrite transcribe_whole_chunk_run.
    assert (forall c, engine (set_console c t1) = engine t1 /\
                      model (set_console c t1) = model t1 /\
                      lang (set_console c t1) = lang t1) as Hsame by (now destruct t1).
    destruct (Hsame (console t1 ++ [DiarizationError err])) as (-> & -> & ->).
    destruct (whisper_transcribe (engine t1) (model t1) audio_float (plain_args (lang t1)))
      as [[text|e'] e2]; cbn [fst snd]; [discriminate|]. intros H. now inversion H. }
  destruct e0; [|split; [discriminate|now apply (Hfallback Empty)]
                |split; [discriminate|now apply (Hfallback (Exception what))]].
  exfalso. revert Hraise. unfold bind at 1. unfold print at 1. unfold modify.
  unfold bind at 1. unfold try_except at 1.
  destruct ((move_models_to_cpu ;; ret true) _) as [[[|]|e1] t2]; cbn beta iota.
  - unfold try_except. destruct (transcribe_whole_chunk audio_float t2) as [[[]|e2] t3];
      cbn; discriminate.
  - cbn. discriminate.
  - unfold bind, print, modify, ret. cbn. discriminate.
Qed.

(** [int] raises nothing but the two errors of a float that is no
    number. *)
Lemma frame_raises (seconds : float) (e : exn) :
  frame seconds = Raise e ->
  e = Exception "ValueError" \/ e = Exception "OverflowError".
Proof.
  unfold frame, int. destruct (Prim2SF _); intros H; inversion H; auto.
Qed.

Lemma for_each_app {A} (body : A -> M Transcriber unit) (l1 l2 : list A) (t : Transcriber) :
  for_each body (l1 ++ l2) t =
    match for_each body l1 t with
    | (Ret _, t1) => for_each body l2 t1
    | (Raise e, t1) => (Raise e, t1)
    end.
Proof.
  revert t. induction l1 as [|x l1 IH]; intros t; [reflexivity|].
  cbn [app for_each]. unfold bind. destruct (body x t) as [[[]|e] t1]; [apply IH|reflexivity].
Qed.

(** X19. A segment one of whose bounds has no frame number -- its product
    with the frame rate is [nan] or infinite -- ends the loop over the
    segments: [int] raises [ValueError] or [OverflowError] before the
    engine is asked anything about that segment, the segments after it
    are not looked at, and the generic handler transcribes the whole
    chunk once. The segments before it have had their turn. *)
Theorem segment_without_frames_ends_the_loop (audio_float : Audio) (t : Transcriber)
    (p : Pipeline) (before after : list Track) (tr : Track) (e1 : Engine) :
  diarization_pipeline t = Some p ->
  pyannote_diarize (engine t) (tuned p) audio_float (diarization_params t) =
    (Ret (before ++ tr :: after), e1) ->
  Forall (fun tr => has_frames tr = true) before ->
  has_frames tr = false ->
  exists (e : exn) (runs : list (list Event * list Transcript)) (t1 : Transcriber),
    segment_audio audio_float tr = Raise e /\
    (e = Exception "ValueError" \/ e = Exception "OverflowError") /\
    diarize_body audio_float t = (Raise e, t1) /\
    Forall2 (fun tr run => attempts (model t) (lang t) audio_float tr (fst run) (snd run))
      before runs /\
    events t1 =
      events t ++
        Diarized (pipeline_device p) audio_float (diarization_params t)
          (Ret (before ++ tr :: after))
        :: concat (map fst runs) /\
    events (exec (diarize_and_transcribe audio_float) t) =
      events t1 ++
        [Transcribed (model t1) audio_float (plain_args (lang t1))
           (fst (whisper_transcribe (engine t1) (model t1) audio_float
                   (plain_args (lang t1))))].
Proof.
  intros Hp Hd Hbefore Hnone.
  pose proof (diarize_body_run _ _ _ _ _ Hp Hd) as Hbody. cbv beta iota in Hbody.
  replace (len (before ++ tr :: after) =? 0) with false in Hbody
    by (destruct before; reflexivity).
  set (t0 := diarized p audio_float (Ret (before ++ tr :: after)) e1 t) in *.
  destruct (diarized_keeps p audio_float (Ret (before ++ tr :: after)) e1 t)
    as (Hev & Hm & Hl & _). fold t0 in Hev, Hm, Hl.
  destruct (for_each_segment_run audio_float before t0 Hbefore)
    as (runs & t1 & Hall & Hret & Hev1 & _).
  destruct (transcribe_segment_without_frames audio_float tr t1 Hnone) as (e & Hcut & Hraise).
  rewrite for_each_app, Hret in Hbody. cbn [for_each] in Hbody. unfold bind in Hbody.
  rewrite Hraise in Hbody.
  assert (He : e = Exception "ValueError" \/ e = Exception "OverflowError").
  { revert Hcut. unfold segment_audio. fold (frame (start tr)) (frame (end_ tr)).
    destruct (frame (start tr)) as [a|e0] eqn:Ea.
    - destruct (frame (end_ tr)) as [b|e0] eqn:Eb; [discriminate|].
      intros H. inversion H; subst. apply (frame_raises _ _ Eb).
    - intros H. inversion H; subst. apply (frame_raises _ _ Ea). }
  exists e, runs, t1. rewrite Hm, Hl in Hall.
  split; [exact Hcut|]. split; [exact He|]. split; [exact Hbody|]. split; [exact Hall|].
  split; [rewrite Hev1, Hev, <- app_assoc; reflexivity|].
  unfold exec, diarize_and_transcribe, try_except. rewrite Hbody.
  destruct He as [-> | ->];
    unfold bind, print, modify; rewrite transcribe_whole_chunk_run;
    match goal with
    | |- context [whisper_transcribe (engine ?x) _ _ _] =>
        assert (engine x = engine t1 /\ model x = model t1 /\ lang x = lang t1)
          as (-> & -> & ->) by (now destruct t1)
    end;
    destruct (whisper_transcribe (engine t1) (model t1) audio_float (plain_args (lang t1)))
      as [[text|e'] e2]; cbn [fst snd];
    destruct t1 as [? [?|] ? ? ? ? ? ? ? ? ? ?]; cbn;
    rewrite ?app_nil_r; reflexivity.
Qed.

(** *** Where the models stay *)

(** Both models where they were. *)
Definition same_devices (t t' : Transcriber) : Prop :=
  model t' = model t /\ diarization_pipeline t' = diarization_pipeline t.

Lemma same_devices_refl (t : Transcriber) : same_devices t t.
Proof. now split. Qed.

Lemma same_devices_trans (a b c : Transcriber) :
  same_devices a b -> same_devices b c -> same_devices a c.
Proof. unfold same_devices. intros [? ?] [? ?]. split; congruence. Qed.

Create HintDb device_steps.

Lemma print_same_devices (m : Msg) (t : Transcriber) : leads same_devices (print m) t.
Proof. now destruct t. Qed.

Lemma emit_same_devices text source sp (t : Transcriber) :
  leads same_devices (emit text source sp) t.
Proof. now destruct t as [? [?|] ? ? ? ? ? ? ? ? ? ?]. Qed.

Lemma model_transcribe_same_devices audio args (t : Transcriber) :
  leads same_devices (model_transcribe audio args) t.
Proof.
  unfold leads, model_transcribe. destruct (whisper_transcribe _ _ _ _). now destruct t.
Qed.

Hint Resolve print_same_devices emit_same_devices model_transcribe_same_devices
  : device_steps.

Lemma transcribe_segment_same_devices audio tr (t : Transcriber) :
  leads same_devices (transcribe_segment audio tr) t.
Proof.
  unfold transcribe_segment. cbv zeta.
  walk same_devices_refl same_devices_trans device_steps.
Qed.

(** X18. Outside the out-of-memory handler nothing moves a model: the
    standard transcription (MIC, or loopback without a diarizer) and the
    loop over the speaker segments leave the speech model and the pipeline
    on their devices whatever the engine raises -- an out-of-memory error
    in a MIC chunk or in a segment included. *)
Theorem only_the_handler_moves_models (audio_float : Audio) (t : Transcriber) :
  (forall source, same_devices t (exec (_transcribe_standard audio_float source) t)) /\
  (forall tracks,
      same_devices t (exec (for_each (transcribe_segment audio_float) tracks) t)).
Proof.
  split.
  - intros source. change (leads same_devices (_transcribe_standard audio_float source) t).
    unfold _transcribe_standard. walk same_devices_refl same_devices_trans device_steps.
  - intros tracks.
    apply (for_each_leads _ same_devices_refl same_devices_trans).
    intros tr t0. apply transcribe_segment_same_devices.
Qed.

End Engines.

Arguments events {Engine} _.
Arguments console {Engine} _.
Arguments model {Engine} _.
Arguments text_callback {Engine} _.
Arguments diarization_pipeline {Engine} _.
Arguments audio_queue {Engine} _.

(** *** Scripted engines *)

(** Engines that answer from a script, one answer per call, whatever they
    are asked; a call past the end of its script returns the empty
    answer. *)
Record Script : Type := mkScript {
  whisper_answers : list (outcome string);
  pyannote_answers : list (outcome (list Track));
  to_cpu_answers : list (outcome unit)
}.

Definition scripted_whisper (s : Script) (_ : Device) (_ : Audio) (_ : TranscribeArgs)
  : outcome string * Script :=
  match whisper_answers s with
  | answer :: rest => (answer, mkScript rest (pyannote_answers s) (to_cpu_answers s))
  | [] => (Ret EmptyString, s)
  end.

Definition scripted_pyannote (s : Script) (_ : Pipeline) (_ : Audio) (_ : DiarizeArgs)
  : outcome (list Track) * Script :=
  match pyannote_answers s with
  | answer :: rest => (answer, mkScript (whisper_answers s) rest (to_cpu_answers s))
  | [] => (Ret [], s)
  end.

Definition scripted_to_cpu (s : Script) (_ : Module_) : outcome unit * Script :=
  match to_cpu_answers s with
  | answer :: rest => (answer, mkScript (whisper_answers s) (pyannote_answers s) rest)
  | [] => (Ret tt, s)
  end.

(** A level meter that finds every chunk loud, and one that finds every
    chunk silent. *)
Definition loud (_ : Audio) : float := 1%float.
Definition quiet (_ : Audio) : float := 0%float.

(** [n] frames of a constant signal. *)
Definition tone (n : Z) : Audio := repeat (1 # 2)%Q (Z.to_nat n).

(** A consumer with both models on the accelerator, a text callback,
    English as the language, recording enabled, and a queue holding
    [chunks]. *)
Definition on_gpu (chunks : list (Audio * Source)) (s : Script) : Transcriber Script :=
  set_recording_enabled Script true
    (__init__ Script cuda (Some (mkPipeline cuda (83 # 100)%Q))
       (mkQueue chunks (len chunks)) true "en"%string s).

Definition stub_diarize_and_transcribe : Audio -> M (Transcriber Script) unit :=
  diarize_and_transcribe Script scripted_whisper scripted_pyannote scripted_to_cpu.

Definition stub_run_iteration (level : Audio -> float) : M (Transcriber Script) unit :=
  run_iteration Script scripted_whisper scripted_pyannote scripted_to_cpu level.

Definition runtime_error : exn := Exception "RuntimeError".

(** C2, as stated, fails: a loud MIC chunk on which the speech engine runs
    out of accelerator memory is given up by the loop's own handler; the
    model stays on the accelerator, nothing is moved, and the engine is
    not called a second time. *)
Lemma mic_out_of_memory_counterexample :
  let t := on_gpu [(tone 16000, MIC)] (mkScript [Raise OutOfMemoryError] [] []) in
  let t' := exec (stub_run_iteration loud) t in
  returns (stub_run_iteration loud) t = true /\
  events t' = [Transcribed cuda (tone 16000) mic_args (Raise OutOfMemoryError)] /\
  model t' = cuda /\
  diarization_pipeline t' = Some (mkPipeline cuda (83 # 100)%Q) /\
  console t' = [TranscriptionError OutOfMemoryError] /\
  ~ (model t' = cpu).
Proof.
  vm_compute. repeat split. intros H. discriminate H.
Qed.

(** C6, as stated, fails: when the diarizer returns no segment and the
    whole-chunk call raises, the whole chunk is transcribed a second
    time by the handler. *)
Lemma zero_segments_two_calls_counterexample :
  let t := on_gpu [] (mkScript [Raise runtime_error; Ret "hello"%string] [Ret []] []) in
  let t' := exec (stub_diarize_and_transcribe (tone 4)) t in
  events t' =
    [Diarized cuda (tone 4) (mkDiarizeArgs None None) (Ret []);
     Transcribed cuda (tone 4) (plain_args (Some "en"%string)) (Raise runtime_error);
     Transcribed cuda (tone 4) (plain_args (Some "en"%string)) (Ret "hello"%string)] /\
  text_callback t' = Some [("hello"%string, LOOPBACK, None)] /\
  length (transcribe_calls (events t')) = 2%nat /\
  ~ (length (transcribe_calls (events t')) = 1%nat).
Proof.
  vm_compute. repeat split. intros H. discriminate H.
Qed.

(** *** Runs of the theorems above *)

Lemma out_of_memory_in_diarization_retries_on_cpu_witness :
  let t := on_gpu [] (mkScript [Ret "hi"%string] [Raise OutOfMemoryError] []) in
  let t' := exec (stub_diarize_and_transcribe (tone 4)) t in
  returns (stub_diarize_and_transcribe (tone 4)) t = true /\
  all_on_cpu Script t' /\
  text_callback t' = Some [("hi"%string, LOOPBACK, None)].
Proof.
  cbv zeta. unfold stub_diarize_and_transcribe.
  destruct (out_of_memory_in_diarization_retries_on_cpu Script
              scripted_whisper scripted_pyannote scripted_to_cpu loud (tone 4)
              (on_gpu [] (mkScript [Ret "hi"%string] [Raise OutOfMemoryError] []))
              (snd (diarize_body Script scripted_whisper scripted_pyannote (tone 4)
                      (on_gpu [] (mkScript [Ret "hi"%string] [Raise OutOfMemoryError] []))))
              (snd (move_models_to_cpu Script scripted_to_cpu
                      (exec (print Script (CudaOutOfMemory OutOfMemoryError))
                         (snd (diarize_body Script scripted_whisper scripted_pyannote (tone 4)
                                 (on_gpu [] (mkScript [Ret "hi"%string]
                                               [Raise OutOfMemoryError] []))))))))
    as (Hret & Hall & _ & Hcb & _).
  - vm_compute. reflexivity.
  - vm_compute. reflexivity.
  - split; [exact Hret|]. split; [exact Hall|]. rewrite Hcb. vm_compute. reflexivity.
Defined.

(** Frame numbers are taken in double precision: 0.3 * 16000 is 4800.0
    there, although the float 0.3 lies below three tenths; bounds that
    are no numbers raise. *)
Example frames_in_double_precision :
  frame 0x1.3333333333333p-2 = Ret 4800 /\
  frame 0x1.999999999999ap-4 = Ret 1600 /\
  frame (-0x1p-15) = Ret 0 /\
  frame 0x1.8p+1 = Ret 48000 /\
  frame nan = Raise (Exception "ValueError") /\
  frame infinity = Raise (Exception "OverflowError") /\
  (16000 * 0x1.999999999999ap-3 =? 3200)%float = true.
Proof.
  vm_compute. repeat split.
Qed.

(** Three speakers: A in the first second, B from 0.1 s to 0.3 s, C in
    the third second. *)
Definition three_speakers : list Track :=
  [mkTrack 0 1 "A";
   mkTrack 0x1.999999999999ap-4 0x1.3333333333333p-2 "B";
   mkTrack 2 3 "C"].

(** The diarizer finds the three speakers; the engine fails twice on the
    second. *)
Definition second_segment_fails : Script :=
  mkScript [Ret " one "%string; Raise runtime_error; Raise OutOfMemoryError;
            Ret "three"%string]
    [Ret three_speakers] [].

Lemma segment_failure_is_isolated_witness :
  let t := on_gpu [] second_segment_fails in
  let t' := exec (stub_diarize_and_transcribe (tone 48000)) t in
  returns (stub_diarize_and_transcribe (tone 48000)) t = true /\
  map (fun c => len (fst c)) (transcribe_calls (events t')) = [16000; 3200; 3200; 16000] /\
  text_callback t' =
    Some [("one"%string, LOOPBACK, Some "A"%string);
          ("three"%string, LOOPBACK, Some "C"%string)].
Proof.
  cbv zeta. unfold stub_diarize_and_transcribe.
  destruct (segment_failure_is_isolated Script
              scripted_whisper scripted_pyannote scripted_to_cpu (tone 48000)
              (on_gpu [] second_segment_fails) (mkPipeline cuda (83 # 100)%Q)
              three_speakers (mkScript (whisper_answers second_segment_fails) [] []))
    as (Hret & _).
  - reflexivity.
  - reflexivity.
  - discriminate.
  - repeat (apply Forall_cons; [reflexivity|]). apply Forall_nil.
  - split; [exact Hret|]. vm_compute. split; reflexivity.
Defined.

(** The run itself: segments one and three are heard, each under its
    speaker; segment two, 3200 frames long, costs two calls and is given
    up. *)
Example second_of_three_segments_fails :
  let t' := exec (stub_diarize_and_transcribe (tone 48000)) (on_gpu [] second_segment_fails) in
  text_callback t' =
    Some [("one"%string, LOOPBACK, Some "A"%string);
          ("three"%string, LOOPBACK, Some "C"%string)] /\
  map snd (transcribe_calls (events t')) =
    [plain_args (Some "en"%string); plain_args (Some "en"%string); fallback_args;
     plain_args (Some "en"%string)] /\
  map (fun c => len (fst c)) (transcribe_calls (events t')) = [16000; 3200; 3200; 16000] /\
  console t' = [SegmentError runtime_error; SegmentFallbackFailed OutOfMemoryError] /\
  model t' = cuda.
Proof.
  vm_compute. repeat split.
Qed.

Lemma zero_segments_one_whole_chunk_call_witness :
  let t := on_gpu [] (mkScript [Ret " hello "%string] [Ret []] []) in
  let t' := exec (stub_diarize_and_transcribe (tone 4)) t in
  returns (stub_diarize_and_transcribe (tone 4)) t = true /\
  length (transcribe_calls (events t')) = 1%nat /\
  text_callback t' = Some [("hello"%string, LOOPBACK, None)].
Proof.
  cbv zeta. unfold stub_diarize_and_transcribe.
  pose proof (zero_segments_one_whole_chunk_call Script
                scripted_whisper scripted_pyannote scripted_to_cpu (tone 4)
                (on_gpu [] (mkScript [Ret " hello "%string] [Ret []] []))
                (mkPipeline cuda (83 # 100)%Q)
                (mkScript [Ret " hello "%string] [] []) eq_refl eq_refl) as H.
  cbv zeta in H. cbn [fst scripted_whisper whisper_answers] in H.
  destruct H as (Hret & Hev & Hcb).
  split; [exact Hret|]. split; [rewrite Hev; reflexivity|].
  rewrite Hcb. vm_compute. reflexivity.
Defined.

(** No segments, and the whole-chunk call runs out of memory: with
    models that can be moved the chunk is transcribed a second time, on
    the CPU; with a model that cannot, the first call stays the only one. *)
Example zero_segments_out_of_memory :
  let movable := mkScript [Raise OutOfMemoryError; Ret "hello"%string] [Ret []] [] in
  let unmovable :=
    mkScript [Raise OutOfMemoryError; Ret "hello"%string] [Ret []] [Raise runtime_error] in
  let retried := exec (stub_diarize_and_transcribe (tone 4)) (on_gpu [] movable) in
  let given_up := exec (stub_diarize_and_transcribe (tone 4)) (on_gpu [] unmovable) in
  length (transcribe_calls (events retried)) = 2%nat /\
  text_callback retried = Some [("hello"%string, LOOPBACK, None)] /\
  events given_up =
    [Diarized cuda (tone 4) (mkDiarizeArgs None None) (Ret []);
     Transcribed cuda (tone 4) (plain_args (Some "en"%string)) (Raise OutOfMemoryError);
     MovedToCpu WhisperModel (Raise runtime_error)] /\
  text_callback given_up = Some [].
Proof.
  vm_compute. repeat split.
Qed.

(** The engine's answer "hi" between a no-break space and an ideographic
    space. *)
Definition hi_in_spaces : string := Eval vm_compute in encode [0xA0; 0x68; 0x69; 0x3000]%N.

Lemma diarization_failure_falls_back_to_whole_chunk_witness :
  let t := on_gpu [] (mkScript [Ret hi_in_spaces] [Raise runtime_error] []) in
  let t' := exec (stub_diarize_and_transcribe (tone 4)) t in
  length (transcribe_calls (events t')) = 1%nat /\
  text_callback t' = Some [("hi"%string, LOOPBACK, None)].
Proof.
  cbv zeta. unfold stub_diarize_and_transcribe.
  destruct (diarization_failure_falls_back_to_whole_chunk Script
              scripted_whisper scripted_pyannote scripted_to_cpu loud (tone 4)
              (on_gpu [] (mkScript [Ret hi_in_spaces] [Raise runtime_error] []))
              (snd (diarize_body Script scripted_whisper scripted_pyannote (tone 4)
                      (on_gpu [] (mkScript [Ret hi_in_spaces] [Raise runtime_error] []))))
              runtime_error)
    as (Hev & _ & Hcb & _).
  - discriminate.
  - vm_compute. reflexivity.
  - split; [rewrite Hev; vm_compute; reflexivity|].
    rewrite Hcb. vm_compute. reflexivity.
Defined.

(** [strip] takes the whitespace of Unicode off both ends and leaves it
    inside a text; an answer of whitespace only is not handed on. *)
Example unicode_whitespace_is_stripped :
  strip hi_in_spaces = "hi"%string /\
  strip (encode [0x3000]%N) = EmptyString /\
  strip (encode [0x2028; 0x20; 0x61; 0x3000; 0x62; 0x0A; 0x85; 0x1F]%N) =
    encode [0x61; 0x3000; 0x62]%N /\
  strip (encode [0x200B; 0x61]%N) = encode [0x200B; 0x61]%N /\
  let t := on_gpu [] (mkScript [Ret (encode [0x3000]%N)] [Raise runtime_error] []) in
  text_callback (exec (stub_diarize_and_transcribe (tone 4)) t) = Some [].
Proof.
  vm_compute. repeat split.
Qed.

Lemma mic_language_is_english_witness :
  let t := on_gpu [] (mkScript [Ret "hallo"%string] [] []) in
  exists args answer,
    events (exec (_transcribe_standard Script scripted_whisper loud (tone 16000) MIC) t) =
      events t ++ [Transcribed (model t) (tone 16000) args answer] /\
    language args = Some "en"%string.
Proof.
  cbv zeta.
  apply (mic_language_is_english Script scripted_whisper loud (tone 16000)
           (on_gpu [] (mkScript [Ret "hallo"%string] [] []))).
  reflexivity.
Defined.

(** When the model cannot be moved, the out-of-memory handler gives the
    chunk up without a retry. *)
Example move_failure_gives_the_chunk_up :
  let t := on_gpu [] (mkScript [Ret "hi"%string] [Raise OutOfMemoryError]
                        [Raise runtime_error]) in
  let t' := exec (stub_diarize_and_transcribe (tone 4)) t in
  returns (stub_diarize_and_transcribe (tone 4)) t = true /\
  transcribe_calls (events t') = [] /\
  model t' = cuda /\
  console t' = [CudaOutOfMemory OutOfMemoryError; MoveToCpuFailed runtime_error] /\
  text_callback t' = Some [].
Proof.
  vm_compute. repeat split.
Qed.

(** The gate on scripted engines: a silent MIC chunk reaches no engine, a
    loud one is transcribed in English even when German is configured. *)
Example silent_mic_chunk_makes_no_call :
  let t := on_gpu [(tone 16000, MIC)] (mkScript [Ret "thank you"%string] [] []) in
  let t' := exec (stub_run_iteration quiet) t in
  events t' = [] /\ text_callback t' = Some [] /\ console t' = [SilenceSkipped] /\
  audio_queue t' = mkQueue [] 0.
Proof.
  vm_compute. repeat split.
Qed.

(** *** Runs of the loop and edge results *)

Definition two_chunks : list (Audio * Source) := [(tone 16000, MIC); (tone 4, LOOPBACK)].

Lemma run_takes_chunks_in_order_witness :
  let t := on_gpu two_chunks (mkScript [Ret "one"%string] [] []) in
  items (audio_queue
           (exec (run Script scripted_whisper scripted_pyannote scripted_to_cpu loud 1) t))
  = [(tone 4, LOOPBACK)].
Proof.
  cbv zeta.
  pose proof (run_takes_chunks_in_order Script scripted_whisper scripted_pyannote
                scripted_to_cpu loud 1
                (on_gpu two_chunks (mkScript [Ret "one"%string] [] []))) as H.
  cbv zeta in H. destruct H as (_ & Hi & _).
  - unfold queue_ok. vm_compute. discriminate.
  - reflexivity.
  - rewrite Hi. reflexivity.
Defined.

Lemma disabled_consumer_only_drains_witness :
  let t := __init__ Script cuda None (mkQueue two_chunks 2) true "en"
             (mkScript [Ret "one"%string] [] []) in
  events (exec (run Script scripted_whisper scripted_pyannote scripted_to_cpu loud 5) t) = [].
Proof.
  cbv zeta.
  pose proof (disabled_consumer_only_drains Script scripted_whisper scripted_pyannote
                scripted_to_cpu loud 5
                (__init__ Script cuda None (mkQueue two_chunks 2) true "en"
                   (mkScript [Ret "one"%string] [] []))) as H.
  cbv zeta in H. destruct H as (_ & _ & He & _).
  - unfold queue_ok. vm_compute. discriminate.
  - reflexivity.
  - reflexivity.
  - rewrite He. reflexivity.
Defined.

Lemma loopback_without_diarizer_is_not_gated_witness :
  let t := __init__ Script cuda None (mkQueue [] 0) true "auto"
             (mkScript [Ret "one"%string] [] []) in
  events (exec (transcribe_chunk Script scripted_whisper scripted_pyannote scripted_to_cpu
                  quiet (tone 4) LOOPBACK) t)
  = [Transcribed cuda (tone 4) (plain_args None) (Ret "one"%string)].
Proof.
  cbv zeta.
  rewrite (loopback_without_diarizer_is_not_gated Script scripted_whisper scripted_pyannote
             scripted_to_cpu quiet (tone 4)).
  - reflexivity.
  - reflexivity.
Defined.

Lemma only_short_segments_yield_nothing_witness :
  let tenth := mkTrack 0 0x1.999999999999ap-4 "A" in
  let script := mkScript [Ret "one"%string] [Ret [tenth]] [] in
  text_callback (exec (stub_diarize_and_transcribe (tone 16000)) (on_gpu [] script))
  = Some [].
Proof.
  cbv zeta. unfold stub_diarize_and_transcribe.
  pose proof (only_short_segments_yield_nothing Script scripted_whisper scripted_pyannote
                scripted_to_cpu (tone 16000)
                (on_gpu [] (mkScript [Ret "one"%string]
                              [Ret [mkTrack 0 0x1.999999999999ap-4 "A"]] []))
                (mkPipeline cuda (83 # 100)%Q) [mkTrack 0 0x1.999999999999ap-4 "A"]
                (mkScript [Ret "one"%string] [] [])) as H.
  cbv zeta in H. destruct H as (_ & _ & Hcb).
  - reflexivity.
  - reflexivity.
  - discriminate.
  - apply Forall_cons; [|apply Forall_nil].
    exists (tone 1600). split; vm_compute; reflexivity.
  - rewrite Hcb. reflexivity.
Defined.

(** The diarizer reports a first segment of one second and a second one
    that never ends. *)
Definition endless_second_segment : list Track :=
  [mkTrack 0 1 "A"; mkTrack 1 infinity "B"; mkTrack 2 3 "C"].

Lemma segment_without_frames_ends_the_loop_witness :
  let script := mkScript [Ret "one"%string; Ret "all three"%string]
                  [Ret endless_second_segment] [] in
  let t' := exec (stub_diarize_and_transcribe (tone 48000)) (on_gpu [] script) in
  segment_audio (tone 48000) (mkTrack 1 infinity "B") = Raise (Exception "OverflowError") /\
  map (fun c => len (fst c)) (transcribe_calls (events t')) = [16000; 48000] /\
  text_callback t' =
    Some [("one"%string, LOOPBACK, Some "A"%string); ("all three"%string, LOOPBACK, None)] /\
  console t' = [DiarizationError (Exception "OverflowError")].
Proof.
  cbv zeta. unfold stub_diarize_and_transcribe.
  destruct (segment_without_frames_ends_the_loop Script
              scripted_whisper scripted_pyannote scripted_to_cpu (tone 48000)
              (on_gpu [] (mkScript [Ret "one"%string; Ret "all three"%string]
                            [Ret endless_second_segment] []))
              (mkPipeline cuda (83 # 100)%Q)
              [mkTrack 0 1 "A"] [mkTrack 2 3 "C"] (mkTrack 1 infinity "B")
              (mkScript [Ret "one"%string; Ret "all three"%string] [] []))
    as (e & runs & t1 & Hcut & _).
  - reflexivity.
  - reflexivity.
  - apply Forall_cons; [reflexivity|apply Forall_nil].
  - reflexivity.
  - split; [vm_compute; reflexivity|]. vm_compute. repeat split.
Defined.

Lemma diarize_and_transcribe_raises_only_twice_failed_witness :
  let t := on_gpu [] (mkScript [Raise runtime_error] [Raise (Exception "ValueError")] []) in
  exists e0 t1,
    diarize_body Script scripted_whisper scripted_pyannote (tone 4) t = (Raise e0, t1) /\
    e0 <> OutOfMemoryError /\
    fst (scripted_whisper (engine Script t1) (model t1) (tone 4)
           (plain_args (lang Script t1))) = Raise runtime_error.
Proof.
  cbv zeta.
  apply (diarize_and_transcribe_raises_only_twice_failed Script scripted_whisper
           scripted_pyannote scripted_to_cpu (tone 4)).
  reflexivity.
Defined.

End transcriber.
